(** * go-asana: the request, error-mapping and pagination pipeline

    A shallow embedding of [asana/asana.go], [asana/task.go] and
    [asana/webhook.go].  Go values are modelled as follows.

    - [*Filter] is a pointer into an explicit store of [Filter] values
      ([nil] is [None]); dereferencing [nil] panics, as the Go runtime does.
    - a slice is a [list]; [len s == 0] does not tell [nil] from empty, so
      one [list] stands for both, except for the slice a list operation
      returns, where [nil] is kept apart.
    - [error] is an inductive type, one constructor per origin.
    - the [Doer] a client is built with is a type class over the state of the
      outside world; every exchange is appended to a trace.
    - the packages the code calls into (net/url, net/http, encoding/json)
      are a record of functions, [Library].
    - the [context.Context] of a call is only handed on to the transport
      and is left out. *)

From Stdlib Require Import ZArith String Ascii List.
From stdpp Require Import base option list strings gmap pretty.

Open Scope string_scope.
Open Scope list_scope.
Open Scope Z_scope.

(** ** Errors *)

(** [Error] is one record of the envelope's [errors] array. *)
Record Error := mkError { Phrase : string; Message : string }.

(** The [error] values that travel through the package: the package's own
    ([ErrUnauthorized], [*Errors], the [fmt.Errorf] and [errors.New] ones)
    and the ones handed over by the transport and the libraries. *)
Inductive error : Type :=
| ErrUnauthorized
| Errors (errs : list Error) (Code : Z)
| ErrNotPointer
| Errorf (msg : string)
| TransportError (msg : string)
| DecodeError (msg : string)
| MarshalError (msg : string)
| URLError (msg : string).

(** ** Filter *)

Record Filter := mkFilter {
  Archived : bool;
  Assignee : Z;
  Project : Z;
  Workspace : Z;
  CompletedSince : string;
  ModifiedSince : string;
  OptFields : list string;
  OptExpand : list string;
  Offset : string;
  Limit : Z
}.

(** [Filter{}] *)
Definition zeroFilter : Filter :=
  mkFilter false 0 0 0 "" "" [] [] "" 0.

(** [f.Offset = s] and [f.OptFields = l], on a value. *)
Definition setOffset (s : string) (f : Filter) : Filter :=
  mkFilter (Archived f) (Assignee f) (Project f) (Workspace f)
    (CompletedSince f) (ModifiedSince f) (OptFields f) (OptExpand f)
    s (Limit f).

Definition setOptFields (l : list string) (f : Filter) : Filter :=
  mkFilter (Archived f) (Assignee f) (Project f) (Workspace f)
    (CompletedSince f) (ModifiedSince f) l (OptExpand f)
    (Offset f) (Limit f).

(** [defaultOptFields], a [map[string][]string]. *)
Definition defaultOptFields : gmap string (list string) :=
  <["tags" := ["name"; "color"; "notes"]]>
  (<["users" := ["name"; "email"; "photo"]]>
  (<["projects" := ["name"; "color"; "archived"]]>
  (<["workspaces" := ["name"; "is_organization"]]>
  (<["tasks" := ["name"; "assignee"; "assignee_status"; "completed"; "parent"]]>
   ∅)))).

(** Indexing a Go map at a missing key gives the zero value, here the [nil]
    slice. *)
Definition index (m : gmap string (list string)) (k : string) : list string :=
  default [] (m !! k).

(** ** Query values

    [url.Values] is a [map[string][]string]; [Add] appends to the key's
    slice. *)
Abbreviation Values := (gmap string (list string)).

Definition Add (k v : string) (m : Values) : Values :=
  <[k := index m k ++ [v]]> m.

(** [query.Values] of go-querystring on a [Filter], following the [url]
    tags of the struct: every field is [omitempty], so a field holding its
    zero value is left out; the two [comma] fields are joined by commas. *)
Definition addBool (k : string) (b : bool) (m : Values) : Values :=
  if b then Add k "true" m else m.

Definition addInt (k : string) (n : Z) (m : Values) : Values :=
  if n =? 0 then m else Add k (pretty n) m.

Definition addString (k : string) (s : string) (m : Values) : Values :=
  if String.eqb s "" then m else Add k s m.

Definition addComma (k : string) (l : list string) (m : Values) : Values :=
  if Nat.eqb (length l) 0 then m else Add k (String.concat "," l) m.

Definition query_Values (opt : Filter) : Values :=
  addInt "limit" (Limit opt)
  (addString "offset" (Offset opt)
  (addComma "opt_expand" (OptExpand opt)
  (addComma "opt_fields" (OptFields opt)
  (addString "modified_since" (ModifiedSince opt)
  (addString "completed_since" (CompletedSince opt)
  (addInt "workspace" (Workspace opt)
  (addInt "project" (Project opt)
  (addInt "assignee" (Assignee opt)
  (addBool "archived" (Archived opt) ∅))))))))).

(** ** HTTP messages *)

(** [url.URL].  [RawQuery], the one field the package writes, is kept as
    the [url.Values] whose [Encode] the code stores in it; [Path] is all the
    rest of the URL (scheme, host, path and fragment), which the package
    hands from one [net/url] function to the next without looking at it.
    The code renders a URL with [String] and parses the text again, twice;
    the URL is taken to come back as it was. *)
Module URL.
Record t := mk { Path : string; RawQuery : Values }.
End URL.

(** [http.Request]: [B] is the type of message bodies. *)
Module HttpRequest.
Record t (B : Type) := mk {
  Method : string;
  URL : URL.t;
  Body : option B;
  Header : gmap string string
}.
Arguments mk {B}.
Arguments Method {B}.
Arguments URL {B}.
Arguments Body {B}.
Arguments Header {B}.
End HttpRequest.

(** [http.Response] *)
Module HttpResponse.
Record t (B : Type) := mk { StatusCode : Z; Body : B }.
Arguments mk {B}.
Arguments StatusCode {B}.
Arguments Body {B}.
End HttpResponse.

Definition StatusUnauthorized : Z := 401.

Module NextPage.
Record t := mk { Offset : string; Path : string; URI : string }.
End NextPage.

(** [Response], the envelope a body is decoded into; [V] is the type of the
    value the caller's destination points to. *)
Module Response.
Record t (V : Type) := mk {
  Data : V;
  NextPage : option NextPage.t;
  Errors : list Error
}.
Arguments mk {V}.
Arguments Data {V}.
Arguments NextPage {V}.
Arguments Errors {V}.
End Response.

(** What [Do] returns: a response or an error. *)
Abbreviation DoResult B := (HttpResponse.t B + error)%type.

(** ** The outside world *)

(** [Doer]: one HTTP exchange, on the state [W] of whatever is behind the
    transport. *)
Class Doer (B W : Type) := Do : HttpRequest.t B -> W -> DoResult B * W.

(** The struct [request], the envelope a payload is sent in.  [Data] is an
    [interface{}]: [None] is [nil]. *)
Module RequestEnvelope.
Record t (P : Type) := mk { Data : option P }.
Arguments mk {P}.
Arguments Data {P}.
End RequestEnvelope.

(** The library functions [request] calls.  [P] is the type of structured
    payloads ([data interface{}]).
    - [url_Parse s] is the error of [url.Parse] on the path [s], if any;
    - [url_Path s] is what [url.Parse] reads in [s] beside the query: the
      text after a question mark is not part of it;
    - [url_reParse u] the error of [url.Parse] on the rendering of [u];
    - [url_Resolve base ref] is what [ResolveReference] makes, beside the
      query, of the reference [ref] under [base], by the rules of RFC 3986;
    - [json_Marshal d] is [json.Marshal] on the value [d];
    - [json_Object fields] is the JSON object with the given fields, each
      with its value already encoded;
    - [form_Encode f] is the body read from [form.Encode()];
    - [http_NewRequest m u] the error of [http.NewRequest], if any. *)
Class Library (P B : Type) := {
  url_Parse : string -> option error;
  url_Path : string -> string;
  url_reParse : URL.t -> option error;
  url_Resolve : string -> string -> string;
  json_Marshal : P -> B + error;
  json_Object : list (string * B) -> B;
  form_Encode : Values -> B;
  http_NewRequest : string -> URL.t -> option error
}.

(** [json.NewDecoder(body).Decode(&Response{Data: v})]: the envelope as far
    as it was filled in, and the decoder's error. *)
Class Decoder (B V : Type) :=
  json_Decode : B -> V -> Response.t V * option error.

(** ** State, panics and the monad *)

(** A [*Filter]: [nil] or a location of the store. *)
Abbreviation ptr := (option nat).

Record state (B W : Type) := mkState {
  heap : list Filter;
  world : W;
  trace : list (HttpRequest.t B * DoResult B)
}.
Arguments mkState {B W}.
Arguments heap {B W}.
Arguments world {B W}.
Arguments trace {B W}.

(** A call returns, panics, or is cut off by the bound the embedding puts
    on a [for {}] loop. *)
Inductive outcome (A : Type) : Type :=
| Val (a : A)
| Panic (msg : string)
| Exhausted.
Arguments Val {A}.
Arguments Panic {A}.
Arguments Exhausted {A}.

Definition M (B W A : Type) : Type := state B W -> outcome A * state B W.

Definition ret {B W A} (a : A) : M B W A := fun st => (Val a, st).

Definition bind {B W A A'} (m : M B W A) (k : A -> M B W A') : M B W A' :=
  fun st =>
    match m st with
    | (Val a, st') => k a st'
    | (Panic msg, st') => (Panic msg, st')
    | (Exhausted, st') => (Exhausted, st')
    end.

Declare Scope go_scope.
Delimit Scope go_scope with go.
Notation "x <- c ;; k" := (bind c (fun x => k))
  (at level 100, c at next level, right associativity) : go_scope.
Open Scope go_scope.

Definition nilDereference : string :=
  "runtime error: invalid memory address or nil pointer dereference".

(** [*p] *)
Definition load {B W} (p : ptr) : M B W Filter :=
  fun st =>
    match p with
    | None => (Panic nilDereference, st)
    | Some l =>
        match heap st !! l with
        | Some f => (Val f, st)
        | None => (Panic nilDereference, st)
        end
    end.

(** [&x] for a local [x] holding [f]: the variable escapes, so it lives in
    the store. *)
Definition new {B W} (f : Filter) : M B W ptr :=
  fun st =>
    (Val (Some (length (heap st))),
     mkState (heap st ++ [f]) (world st) (trace st)).

(** [p.Field = ...], as an update [g] of the struct [p] points to. *)
Definition store {B W} (p : ptr) (g : Filter -> Filter) : M B W unit :=
  fun st =>
    match p with
    | None => (Panic nilDereference, st)
    | Some l =>
        match heap st !! l with
        | Some f => (Val tt, mkState (<[l := g f]> (heap st)) (world st) (trace st))
        | None => (Panic nilDereference, st)
        end
    end.

(** [c.doer.Do(req)] *)
Definition doerDo {B W} `{Doer B W} (req : HttpRequest.t B) : M B W (DoResult B) :=
  fun st =>
    let (r, w) := Do req (world st) in
    (Val r, mkState (heap st) w (trace st ++ [(req, r)])).

(** ** The client *)

Record Client := mkClient { BaseURL : string; UserAgent : string }.

Definition libraryVersion : string := "0.1".
Definition userAgent : string := "go-asana/" +:+ libraryVersion.
Definition defaultBaseURL : string := "https://app.asana.com/api/1.0/".

(** [NewClient]: the doer it is given (or [http.DefaultClient]) is the
    [Doer] instance in scope. *)
Definition NewClient : Client := mkClient defaultBaseURL userAgent.

Section Request.
Context {P B W V : Type} `{Library P B} `{Doer B W} `{Decoder B V}.

(** [base.ResolveReference(rel)]: the query is the reference's.  (Only
    for a reference with neither path nor query would it be the base's,
    and the base [NewClient] parses has none.) *)
Definition ResolveReference (base : string) (rel : URL.t) : URL.t :=
  URL.mk (url_Resolve base (URL.Path rel)) (URL.RawQuery rel).

(** [addOptions]: the URL parsed from [s], with the filter as its query in
    the place of the one [s] had.  The rendered string it returns stays a
    [URL.t].  [query.Values] fails on values that are not structs only, so
    its error branch is never taken for a [Filter]. *)
Definition addOptions (s : string) (opt : Filter) : URL.t + error :=
  match url_Parse s with
  | Some err => inr err
  | None =>
      let qs := query_Values opt in
      inl (URL.mk (url_Path s) qs)
  end.

(** [json.Marshal] on a [request] struct: the object with the one field its
    tag names, [data], which [omitempty] leaves out when [Data] is [nil]. *)
Definition marshalEnvelope (r : RequestEnvelope.t P) : B + error :=
  match RequestEnvelope.Data r with
  | None => inl (json_Object [])
  | Some d =>
      match json_Marshal d with
      | inr err => inr err
      | inl b => inl (json_Object [("data", b)])
      end
  end.

(** [request]: [data] and [form] are [None] for [nil]; [v] is what the
    destination holds, and comes back as the call leaves it.  Each nested
    [match] is one of the source's [if err != nil { return nil, err }]. *)
Definition request (c : Client) (method path : string)
    (data : option P) (form : option Values) (opt : ptr) (v : V)
  : M B W (V * option NextPage.t * option error) :=
  opt <- match opt with
         | None => new zeroFilter
         | Some _ => ret opt
         end ;;
  f <- load opt ;;
  opt <- (if Nat.eqb (length (OptFields f)) 0 then
            newOpt <- load opt ;;
            opt <- new newOpt ;;
            _ <- store opt (setOptFields (index defaultOptFields path)) ;;
            ret opt
          else ret opt) ;;
  f <- load opt ;;
  match addOptions path f with
  | inr err => ret (v, None, Some err)
  | inl urlStr =>
  match url_reParse urlStr with
  | Some err => ret (v, None, Some err)
  | None =>
  let u := ResolveReference (BaseURL c) urlStr in
  match
    match data, form with
    | Some d, _ =>
        match marshalEnvelope (RequestEnvelope.mk (Some d)) with
        | inr err => inr err
        | inl b => inl (Some b)
        end
    | None, Some fm => inl (Some (form_Encode fm))
    | None, None => inl None
    end
  with
  | inr err => ret (v, None, Some err)
  | inl body =>
  match http_NewRequest method u with
  | Some err => ret (v, None, Some err)
  | None =>
  let header : gmap string string :=
    match data, form with
    | Some _, _ => <["Content-Type" := "application/json"]> ∅
    | None, Some _ => <["Content-Type" := "application/x-www-form-urlencoded"]> ∅
    | None, None => ∅
    end in
  let header := <["User-Agent" := UserAgent c]> header in
  let req := HttpRequest.mk method u body header in
  r <- doerDo req ;;
  match r with
  | inr err => ret (v, None, Some err)
  | inl resp =>
      if HttpResponse.StatusCode resp =? StatusUnauthorized then
        ret (v, None, Some ErrUnauthorized)
      else
        let (res, err) := json_Decode (HttpResponse.Body resp) v in
        if Nat.ltb 0 (length (Response.Errors res)) then
          ret (Response.Data res, None,
               Some (Errors (Response.Errors res) (HttpResponse.StatusCode resp)))
        else
          ret (Response.Data res, Response.NextPage res, err)
  end
  end end end end.

(** [Request] *)
Definition Request (c : Client) (path : string) (opt : ptr) (v : V)
  : M B W (V * option error) :=
  r <- request c "GET" path None None opt v ;;
  let '(v, _, err) := r in
  ret (v, err).
End Request.

(** ** Pagination *)

Section Pagination.
Context {P B W E : Type} `{Library P B} `{Doer B W} `{Decoder B (list E)}.

(** [remake]: a pointer to a new zero value of the type [v] points to.
    Every caller hands [pagenate] the address of a slice, and [v] is what
    that slice holds, so the value is the [nil] slice; the [error] in
    the result type is what the source's signature has. *)
Definition remake (v : list E) : list E + error := inl [].

(** [pagenate].  The source loops with [for {}]; [fuel] bounds the
    number of pages asked for, and running out of it is [Exhausted]. *)
Fixpoint pagenate (fuel : nat) (c : Client) (path : string) (opt : ptr)
    (v : list E) : M B W (list E * option error) :=
  match fuel with
  | O => fun st => (Exhausted, st)
  | S fuel =>
      match remake v with
      | inr err => ret (v, Some err)
      | inl page =>
          r <- request (P := P) c "GET" path None None opt page ;;
          let '(page, next, err) := r in
          match err with
          | Some err => ret (v, Some err)
          | None =>
              let v := v ++ page in
              match next with
              | None => ret (v, None)
              | Some next =>
                  newOpt <- load opt ;;
                  opt <- new newOpt ;;
                  _ <- store opt (setOffset (NextPage.Offset next)) ;;
                  pagenate fuel c path opt v
              end
          end
      end
  end.

(** The body the [List...] operations share: [rets := []T{}], then
    [pagenate] into [&rets]; on an error the slice returned is [nil]
    ([None]). *)
Definition listAll (fuel : nat) (c : Client) (path : string) (opt : ptr)
  : M B W (option (list E) * option error) :=
  r <- pagenate fuel c path opt [] ;;
  let '(rets, err) := r in
  match err with
  | Some err => ret (None, Some err)
  | None => ret (Some rets, None)
  end.

Definition ListWorkspaces fuel c opt := listAll fuel c "workspaces" opt.
Definition ListUsers fuel c opt := listAll fuel c "users" opt.
Definition ListProjects fuel c opt := listAll fuel c "projects" opt.
Definition ListTags fuel c opt := listAll fuel c "tags" opt.
Definition ListTasks fuel c opt := listAll fuel c "tasks" opt.
Definition ListTaskStories fuel c (taskID : Z) opt :=
  listAll fuel c ("tasks/" +:+ pretty taskID +:+ "/stories") opt.
Definition ListProjectTasks fuel c (projectID : Z) opt :=
  listAll fuel c ("projects/" +:+ pretty projectID +:+ "/tasks") opt.
Definition ListProjectSections fuel c (projectID : Z) opt :=
  listAll fuel c ("projects/" +:+ pretty projectID +:+ "/sections") opt.

(** [GetWebhooks] (webhook.go) has the loop written out. *)
Fixpoint GetWebhooks_loop (fuel : nat) (c : Client) (opt : ptr)
    (webhooks : list E) : M B W (option (list E) * option error) :=
  match fuel with
  | O => fun st => (Exhausted, st)
  | S fuel =>
      r <- request (P := P) c "GET" "webhooks" None None opt [] ;;
      let '(page, next, err) := r in
      match err with
      | Some err => ret (None, Some err)
      | None =>
          let webhooks := webhooks ++ page in
          match next with
          | None => ret (Some webhooks, None)
          | Some next =>
              newOpt <- load opt ;;
              opt <- new newOpt ;;
              _ <- store opt (setOffset (NextPage.Offset next)) ;;
              GetWebhooks_loop fuel c opt webhooks
          end
      end
  end.

Definition GetWebhooks (fuel : nat) (c : Client) (opt : ptr) :=
  GetWebhooks_loop fuel c opt [].
End Pagination.

(** ** Operations on one object *)

Section Operations.
Context {P B W V : Type} `{Library P B} `{Doer B W} `{Decoder B V}.

Definition externalTaskQuery (externalID : string) : string :=
  "tasks/external:" +:+ externalID.

(** [GetTask]; [zero] is [new(Task)]. *)
Definition GetTask (c : Client) (id : Z) (opt : ptr) (zero : V) :=
  Request (P := P) c ("tasks/" +:+ pretty id) opt zero.

Definition GetTaskByExternalID (c : Client) (externalID : string)
    (opt : ptr) (zero : V) :=
  Request (P := P) c (externalTaskQuery externalID) opt zero.

(** [UpdateTask]: [tu] is the payload. *)
Definition UpdateTask (c : Client) (id : Z) (tu : P) (opt : ptr) (zero : V)
  : M B W (V * option error) :=
  r <- request c "PUT" ("tasks/" +:+ pretty id) (Some tu) None opt zero ;;
  let '(task, _, err) := r in
  ret (task, err).

Definition CreateTask (c : Client) (fields : P) (opts : ptr) (zero : V)
  : M B W (V * option error) :=
  r <- request c "POST" "tasks" (Some fields) None opts zero ;;
  let '(task, _, err) := r in
  ret (task, err).

End Operations.

(** ** Operations on one webhook

    [GetWebhook] and [CreateWebhook] hand [request] the address of the
    pointer [webhook], not the pointer itself.  What the decoder writes is
    then the pointer: [None] is [nil], which [encoding/json] stores for a
    [null], and the [*webhook] of the [return] reads through it. *)
Section WebhookOperations.
Context {P B W Wh : Type} `{Library P B} `{Doer B W} `{Decoder B (option Wh)}.

(** [*p] for a pointer to a webhook. *)
Definition deref (p : option Wh) : M B W Wh :=
  fun st =>
    match p with
    | Some x => (Val x, st)
    | None => (Panic nilDereference, st)
    end.

(** [GetWebhook]; [zero] is the value [new(Webhook)] points to. *)
Definition GetWebhook (c : Client) (id : Z) (zero : Wh)
  : M B W (Wh * option error) :=
  r <- Request (P := P) c ("webhooks/" +:+ pretty id) None (Some zero) ;;
  let '(webhook, err) := r in
  x <- deref webhook ;;
  ret (x, err).

(** [CreateWebhook] sends a form and no filter. *)
Definition CreateWebhook (c : Client) (id : Z) (target : string) (zero : Wh)
  : M B W (Wh * option error) :=
  let p : Values := <["resource" := [pretty id]]> (<["target" := [target]]> ∅) in
  r <- request (P := P) c "POST" "webhooks" None (Some p) None (Some zero) ;;
  let '(webhook, _, err) := r in
  x <- deref webhook ;;
  ret (x, err).
End WebhookOperations.

(** ** Custom fields of a task *)

Module CFEnumOptions.
Record t := mk { ID : Z; Name : string; Color : string; Enabled : bool }.
End CFEnumOptions.

Module CustomField.
Record t := mk {
  ID : Z;
  Name : string;
  Description : string;
  Type_ : string;
  EnumOptions : list CFEnumOptions.t;
  Precision : Z;
  TextValue : string;
  NumberValue : Z;
  EnumValue : CFEnumOptions.t
}.
End CustomField.

(** [Task], with the fields of the struct that are not themselves structs
    of the API and the one [GetCustomFieldValue] reads. *)
Module Task.
Record t := mk {
  ID : Z;
  AssigneeStatus : string;
  Completed : bool;
  CustomFields : list CustomField.t;
  Name : string;
  Notes : string;
  DueOn : string;
  DueAt : string
}.
End Task.

(** [string(n)] for an [int64]: the UTF-8 encoding of the code point [n],
    and of U+FFFD when [n] is not a valid one (the runtime's [intstring]
    and [encoderune]). *)
Definition runeError : Z := 0xFFFD.
Definition maxRune : Z := 0x10FFFF.
Definition surrogateMin : Z := 0xD800.
Definition surrogateMax : Z := 0xDFFF.

Definition byte (b : Z) : ascii := ascii_of_N (Z.to_N (Z.land b 0xFF)).

Definition bytes (l : list Z) : string :=
  fold_right (fun b s => String (byte b) s) EmptyString l.

Definition encode3 (r : Z) : list Z :=
  [Z.lor 0xE0 (Z.shiftr r 12);
   Z.lor 0x80 (Z.land (Z.shiftr r 6) 0x3F);
   Z.lor 0x80 (Z.land r 0x3F)].

Definition encoderune (r : Z) : list Z :=
  let i := r mod 2 ^ 32 in
  if i <=? 0x7F then [r]
  else if i <=? 0x7FF then
    [Z.lor 0xC0 (Z.shiftr r 6); Z.lor 0x80 (Z.land r 0x3F)]
  else if (maxRune <? i) || ((surrogateMin <=? i) && (i <=? surrogateMax)) then
    encode3 runeError
  else if i <=? 0xFFFF then encode3 r
  else
    [Z.lor 0xF0 (Z.shiftr r 18);
     Z.lor 0x80 (Z.land (Z.shiftr r 12) 0x3F);
     Z.lor 0x80 (Z.land (Z.shiftr r 6) 0x3F);
     Z.lor 0x80 (Z.land r 0x3F)].

Definition intstring (v : Z) : string :=
  let v := if (- 2 ^ 31 <=? v) && (v <? 2 ^ 31) then v else runeError in
  bytes (encoderune v).

(** [GetCustomFieldValue]: the [for ... range] over [t.CustomFields], then
    the method itself.  A [switch] without a matching case falls out of
    the [if], and the loop goes on. *)
Fixpoint rangeCustomFields (cfs : list CustomField.t) (name : string)
  : string * option error :=
  match cfs with
  | [] => ("", Some (Errorf ("Custom field '" +:+ name +:+ "' not found")))
  | cf :: cfs =>
      if String.eqb (CustomField.Name cf) name then
        if String.eqb (CustomField.Type_ cf) "enum" then
          (CFEnumOptions.Name (CustomField.EnumValue cf), None)
        else if String.eqb (CustomField.Type_ cf) "text" then
          (CustomField.TextValue cf, None)
        else if String.eqb (CustomField.Type_ cf) "number" then
          (intstring (CustomField.NumberValue cf), None)
        else rangeCustomFields cfs name
      else rangeCustomFields cfs name
  end.

Definition GetCustomFieldValue (t : Task.t) (name : string)
  : string * option error :=
  rangeCustomFields (Task.CustomFields t) name.

(** ** Vocabulary of the statements *)

(** What a [*Filter] stands for when [request] reads it: the struct it
    points to, and [Filter{}] for [nil]. *)
Definition pointee (h : list Filter) (opt : ptr) : option Filter :=
  match opt with
  | None => Some zeroFilter
  | Some l => h !! l
  end.

(** The filter [request] encodes into the query. *)
Definition withDefaults (path : string) (f : Filter) : Filter :=
  if Nat.eqb (length (OptFields f)) 0
  then setOptFields (index defaultOptFields path) f
  else f.

(** The structs [request] puts in the store, in order. *)
Definition allocated (path : string) (opt : ptr) (f : Filter) : list Filter :=
  (match opt with None => [zeroFilter] | Some _ => [] end) ++
  (if Nat.eqb (length (OptFields f)) 0 then [withDefaults path f] else []).

(** The part of a path before its first slash. *)
Fixpoint resourcePrefix (path : string) : string :=
  match path with
  | EmptyString => EmptyString
  | String a rest =>
      if Ascii.eqb a "/" then EmptyString else String a (resourcePrefix rest)
  end.

Section Vocabulary.
Context {P B W V : Type} `{Library P B} `{Doer B W} `{Decoder B V}.

(** The request that goes out for a filter [f], when it can be built. *)
Definition outgoing (c : Client) (method path : string)
    (data : option P) (form : option Values) (f : Filter)
  : HttpRequest.t B + error :=
  match url_Parse path with
  | Some err => inr err
  | None =>
  let rel := URL.mk (url_Path path) (query_Values (withDefaults path f)) in
  match url_reParse rel with
  | Some err => inr err
  | None =>
  let u := ResolveReference (P := P) (BaseURL c) rel in
  match data, form with
  | Some d, _ =>
      match json_Marshal d with
      | inr err => inr err
      | inl b =>
          match http_NewRequest method u with
          | Some err => inr err
          | None =>
              inl (HttpRequest.mk method u (Some (json_Object [("data", b)]))
                     (<["User-Agent" := UserAgent c]>
                        (<["Content-Type" := "application/json"]> ∅)))
          end
      end
  | None, Some fm =>
      match http_NewRequest method u with
      | Some err => inr err
      | None =>
          inl (HttpRequest.mk method u (Some (form_Encode fm))
                 (<["User-Agent" := UserAgent c]>
                    (<["Content-Type" := "application/x-www-form-urlencoded"]> ∅)))
      end
  | None, None =>
      match http_NewRequest method u with
      | Some err => inr err
      | None =>
          inl (HttpRequest.mk method u None (<["User-Agent" := UserAgent c]> ∅))
      end
  end
  end end.

(** What [request] returns for what the transport returned. *)
Definition received (r : DoResult B) (v : V)
  : V * option NextPage.t * option error :=
  match r with
  | inr err => (v, None, Some err)
  | inl resp =>
      if HttpResponse.StatusCode resp =? StatusUnauthorized then
        (v, None, Some ErrUnauthorized)
      else
        let (res, err) := json_Decode (HttpResponse.Body resp) v in
        if Nat.ltb 0 (length (Response.Errors res)) then
          (Response.Data res, None,
           Some (Errors (Response.Errors res) (HttpResponse.StatusCode resp)))
        else (Response.Data res, Response.NextPage res, err)
  end.
End Vocabulary.

(** ** Test doubles *)

(** Bodies on a wire where nothing is serialised: a request body is the
    payload, the JSON object or the form it was made from, a response body
    the envelope and decoder error it decodes to. *)
#[local] Unset Elimination Schemes.
Inductive wire (P V : Type) : Type :=
| JSON (data : P)
| Object (fields : list (string * wire P V))
| Form (form : Values)
| Envelope (res : Response.t V) (err : option error).
#[local] Set Elimination Schemes.
Arguments JSON {P V}.
Arguments Object {P V}.
Arguments Form {P V}.
Arguments Envelope {P V}.

(** A library that accepts everything, for paths that are plain relative
    paths under a base that ends in a slash: such a path is all there is to
    parse, and resolving it appends it to the base. *)
#[export] Instance wireLibrary (P V : Type) : Library P (wire P V) := {|
  url_Parse := fun _ => None;
  url_Path := fun s => s;
  url_reParse := fun _ => None;
  url_Resolve := fun base ref => base +:+ ref;
  json_Marshal := fun d => inl (JSON d);
  json_Object := fun fields => Object fields;
  form_Encode := fun fm => Form fm;
  http_NewRequest := fun _ _ => None
|}.

#[export] Instance wireDecoder (P V : Type) : Decoder (wire P V) V :=
  fun b v =>
    match b with
    | Envelope res err => (res, err)
    | _ => (Response.mk v None [], Some (DecodeError "unexpected body"))
    end.

(** A transport that plays back a list of results, one per request. *)
#[export] Instance scripted (B : Type) : Doer B (list (DoResult B)) :=
  fun _ w =>
    match w with
    | [] => (inr (TransportError "no response left"), [])
    | r :: w => (r, w)
    end.

(** A page of a listing, as a response on the wire. *)
Definition page {P E : Type} (status : Z) (data : list E)
    (next : option NextPage.t) : DoResult (wire P (list E)) :=
  inl (HttpResponse.mk status (Envelope (Response.mk data next []) None)).

(** ** Vocabulary of the pagination statements *)

Section PaginationVocabulary.
Context {P B E : Type} `{Library P B} `{Decoder B (list E)}.

(** The request a list operation sends for the filter [f]. *)
Definition listRequest (c : Client) (path : string) (f : Filter)
  : HttpRequest.t B :=
  HttpRequest.mk "GET"
    (ResolveReference (P := P) (BaseURL c)
       (URL.mk (url_Path path) (query_Values (withDefaults path f))))
    None (<["User-Agent" := UserAgent c]> ∅).

(** Every [GET] for [path] can be built: none of the library calls on the
    way fails, whatever the query. *)
Definition constructible (c : Client) (path : string) : Prop :=
  url_Parse path = None /\
  forall q : Values,
    url_reParse (URL.mk (url_Path path) q) = None /\
    http_NewRequest "GET"
      (ResolveReference (P := P) (BaseURL c) (URL.mk (url_Path path) q)) = None.

(** The transport's answer [r] is a page: a response that is not a 401 and
    whose body decodes, without a decoder error and without error records,
    to the elements [data] and the cursor [next]. *)
Definition isPage (r : DoResult B) (data : list E) (next : option NextPage.t)
  : Prop :=
  exists resp, r = inl resp /\
    HttpResponse.StatusCode resp <> StatusUnauthorized /\
    json_Decode (HttpResponse.Body resp) [] = (Response.mk data next [], None).

(** The transport's answer [r] is a failure that [request] reports as
    [err]. *)
Inductive failsWith : DoResult B -> error -> Prop :=
| transportFailure err :
    failsWith (inr err) err
| authenticationFailure resp :
    HttpResponse.StatusCode resp = StatusUnauthorized ->
    failsWith (inl resp) ErrUnauthorized
| applicationFailure resp res derr :
    HttpResponse.StatusCode resp <> StatusUnauthorized ->
    json_Decode (HttpResponse.Body resp) [] = (res, derr) ->
    Response.Errors res <> [] ->
    failsWith (inl resp) (Errors (Response.Errors res) (HttpResponse.StatusCode resp))
| decodeFailure resp res err :
    HttpResponse.StatusCode resp <> StatusUnauthorized ->
    json_Decode (HttpResponse.Body resp) [] = (res, Some err) ->
    Response.Errors res = [] ->
    failsWith (inl resp) err.

(** The filters the requests of a listing are built from: the caller's,
    then the caller's with each cursor's offset in turn. *)
Definition advance (f : Filter) (cursors : list NextPage.t) : list Filter :=
  f :: map (fun next => setOffset (NextPage.Offset next) f) cursors.

(** The [offset] parameter of a query that carries the offset [o]: the
    one value [o], and no parameter at all for the empty string. *)
Definition offsetParameter (o : string) : option (list string) :=
  if String.eqb o "" then None else Some [o].

(** The filter the loop holds after following [cursors]. *)
Definition lastFilter (f : Filter) (cursors : list NextPage.t) : Filter :=
  match last cursors with
  | Some next => setOffset (NextPage.Offset next) f
  | None => f
  end.
End PaginationVocabulary.

(** The transport, from the state [w], answers the requests of the
    exchanges [xs] one after the other with their results, and is left in
    the state [w']. *)
Inductive serves {B W : Type} `{Doer B W}
  : W -> list (HttpRequest.t B * DoResult B) -> W -> Prop :=
| serves_nil (w : W) : serves w [] w
| serves_cons (w : W) (req : HttpRequest.t B) (r : DoResult B) (w1 : W)
    (xs : list (HttpRequest.t B * DoResult B)) (w2 : W) :
    Do req w = (r, w1) -> serves w1 xs w2 -> serves w ((req, r) :: xs) w2.

(** The paginated list operations of the package, and the path each one
    asks for. *)
Inductive listOperation : Type :=
| Workspaces
| Users
| Projects
| Tags
| Tasks
| TaskStories (taskID : Z)
| ProjectTasks (projectID : Z)
| ProjectSections (projectID : Z)
| Webhooks.

Definition listPath (op : listOperation) : string :=
  match op with
  | Workspaces => "workspaces"
  | Users => "users"
  | Projects => "projects"
  | Tags => "tags"
  | Tasks => "tasks"
  | TaskStories taskID => "tasks/" +:+ pretty taskID +:+ "/stories"
  | ProjectTasks projectID => "projects/" +:+ pretty projectID +:+ "/tasks"
  | ProjectSections projectID => "projects/" +:+ pretty projectID +:+ "/sections"
  | Webhooks => "webhooks"
  end.

Section ListOperations.
Context {P B W E : Type} `{Library P B} `{Doer B W} `{Decoder B (list E)}.

Definition runList (op : listOperation) (fuel : nat) (c : Client) (opt : ptr)
  : M B W (option (list E) * option error) :=
  match op with
  | Workspaces => ListWorkspaces (P := P) fuel c opt
  | Users => ListUsers (P := P) fuel c opt
  | Projects => ListProjects (P := P) fuel c opt
  | Tags => ListTags (P := P) fuel c opt
  | Tasks => ListTasks (P := P) fuel c opt
  | TaskStories taskID => ListTaskStories (P := P) fuel c taskID opt
  | ProjectTasks projectID => ListProjectTasks (P := P) fuel c projectID opt
  | ProjectSections projectID => ListProjectSections (P := P) fuel c projectID opt
  | Webhooks => GetWebhooks (P := P) fuel c opt
  end.

(** What a [List...] operation makes of the result of [pagenate]. *)
Definition returned (r : outcome (list E * option error) * state B W)
  : outcome (option (list E) * option error) * state B W :=
  match r with
  | (Val (rets, Some err), st) => (Val (None, Some err), st)
  | (Val (rets, None), st) => (Val (Some rets, None), st)
  | (Panic msg, st) => (Panic msg, st)
  | (Exhausted, st) => (Exhausted, st)
  end.
End ListOperations.

(** ** Vocabulary of the custom-field statements *)

(** The types [GetCustomFieldValue] has a case for. *)
Definition recognized (ty : string) : bool :=
  String.eqb ty "enum" || String.eqb ty "text" || String.eqb ty "number".

(** A custom field that answers a lookup of [name]. *)
Definition answers (name : string) (cf : CustomField.t) : bool :=
  String.eqb (CustomField.Name cf) name && recognized (CustomField.Type_ cf).

(** The value of a custom field of a recognized type. *)
Definition fieldValue (cf : CustomField.t) : string :=
  if String.eqb (CustomField.Type_ cf) "enum" then
    CFEnumOptions.Name (CustomField.EnumValue cf)
  else if String.eqb (CustomField.Type_ cf) "text" then
    CustomField.TextValue cf
  else intstring (CustomField.NumberValue cf).

Definition notFound (name : string) : error :=
  Errorf ("Custom field '" +:+ name +:+ "' not found").

(** ** Fixtures *)

Abbreviation testWire := (wire string (list string)).

Definition cursor (offset : string) : NextPage.t := NextPage.mk offset "" "".

(** Two pages, [a b] with the cursor [off1] and then [c]. *)
Definition firstPage : DoResult testWire :=
  page 200 ["a"; "b"] (Some (cursor "off1")).
Definition secondPage : DoResult testWire := page 200 ["c"] None.
Definition twoPages : list (DoResult testWire) := [firstPage; secondPage].

(** A 401 whose body is a well-formed envelope without error records. *)
Definition unauthorizedResponse : HttpResponse.t testWire :=
  HttpResponse.mk 401 (Envelope (Response.mk ["a"; "b"] None []) None).

(** A 200 whose envelope has an error record and decodes without error. *)
Definition notFoundRecord : Error := mkError "6 sad squid snuggle softly" "Not Found".
Definition errorResponse : HttpResponse.t testWire :=
  HttpResponse.mk 200 (Envelope (Response.mk [] None [notFoundRecord]) None).

(** A 200 whose envelope has an error record and a decoder error. *)
Definition brokenErrorResponse : HttpResponse.t testWire :=
  HttpResponse.mk 200
    (Envelope (Response.mk [] None [notFoundRecord])
       (Some (DecodeError "cannot unmarshal string into Go value"))).

Definition webhookForm : Values :=
  <["resource" := ["7"]]> (<["target" := ["https://example.org/hook"]]> ∅).

Definition fieldSelection : Filter :=
  setOptFields ["name"; "notes"] zeroFilter.

Definition priorityField : CustomField.t :=
  CustomField.mk 1 "Priority" "" "enum" [] 0 "" 0
    (CFEnumOptions.mk 10 "High" "red" true).
Definition peopleField : CustomField.t :=
  CustomField.mk 2 "Owner" "" "people" [] 0 "" 0 (CFEnumOptions.mk 0 "" "" false).
Definition ownerField : CustomField.t :=
  CustomField.mk 3 "Owner" "" "text" [] 0 "Ada" 0 (CFEnumOptions.mk 0 "" "" false).
Definition aTask : Task.t :=
  Task.mk 42 "" false [priorityField; peopleField; ownerField] "Write" "" "" "".

(** The request [request] sends for a [POST] to [webhooks] with the payload
    ["payload"] and no filter. *)
Definition webhookRequest : HttpRequest.t testWire :=
  HttpRequest.mk "POST" (URL.mk (defaultBaseURL +:+ "webhooks") ∅)
    (Some (Object [("data", JSON "payload")]))
    (<["User-Agent" := userAgent]> (<["Content-Type" := "application/json"]> ∅)).

(** ** Vocabulary of the query statements *)

(** The names of the query parameters a [Filter] has tags for. *)
Definition filterKeys : list string :=
  ["archived"; "assignee"; "project"; "workspace"; "completed_since";
   "modified_since"; "opt_fields"; "opt_expand"; "offset"; "limit"].

(** ** The first version of the list operations

    The first version of asana.go in the sources writes the loop out in
    every list operation ([ListWorkspaces], [ListUsers], [ListProjects],
    [ListTasks], [ListProjectTasks], [ListTaskStories], [ListTags],
    [GetWebhooks]); the operations differ in the path only, which is the
    parameter here. *)
Section FirstVersion.
Context {P B W E : Type} `{Library P B} `{Doer B W} `{Decoder B (list E)}.

Fixpoint writtenOutLoop (fuel : nat) (c : Client) (path : string) (opt : ptr)
    (rets : list E) : M B W (option (list E) * option error) :=
  match fuel with
  | O => fun st => (Exhausted, st)
  | S fuel =>
      r <- request (P := P) c "GET" path None None opt [] ;;
      let '(page, next, err) := r in
      match err with
      | Some err => ret (None, Some err)
      | None =>
          let rets := rets ++ page in
          match next with
          | None => ret (Some rets, None)
          | Some next =>
              newOpt <- load opt ;;
              opt <- new newOpt ;;
              _ <- store opt (setOffset (NextPage.Offset next)) ;;
              writtenOutLoop fuel c path opt rets
          end
      end
  end.

Definition writtenOut (fuel : nat) (c : Client) (path : string) (opt : ptr) :=
  writtenOutLoop fuel c path opt [].
End FirstVersion.

(** A transport that gives the same answer to every request. *)
Inductive forever (B : Type) : Type := Forever (r : DoResult B).
Arguments Forever {B}.

#[export] Instance foreverDoer (B : Type) : Doer B (forever B) :=
  fun _ w => match w with Forever r => (r, w) end.

(** A library that rejects the path [:] (as [url.Parse] does: it has no
    scheme before the colon) and the payload [chan] (standing for a value
    [json.Marshal] has no encoding for). *)
Definition pickyLibrary : Library string testWire := {|
  url_Parse := fun s =>
    if String.eqb s ":" then Some (URLError "missing protocol scheme") else None;
  url_Path := fun s => s;
  url_reParse := fun _ => None;
  url_Resolve := fun base ref => base +:+ ref;
  json_Marshal := fun d =>
    if String.eqb d "chan" then inr (MarshalError "unsupported type")
    else inl (JSON d);
  json_Object := fun fields => Object fields;
  form_Encode := fun fm => Form fm;
  http_NewRequest := fun _ _ => None
|}.

(** ** Error texts and [toURLValues] *)

(** The [Error] methods of [Error] and of [*Errors]. *)
Definition Error_Error (e : Error) : string :=
  Message e +:+ " - " +:+ Phrase e.

Definition Errors_Error (errs : list Error) (Code : Z) : string :=
  "code: " +:+ pretty Code +:+ ", "
    +:+ String.concat ", " (map Error_Error errs).

(** [toURLValues].  A [range] over a Go map visits its entries in an order
    that is not specified: [entries] is the map as the list of its entries
    in the order of the visit. *)
Definition toURLValues (entries : list (string * string)) : Values :=
  foldl (fun values kv => <[kv.1 := [kv.2]]> values) ∅ entries.

(** ** Vocabulary of the code-point statements *)

(** The numbers that are Unicode code points with a UTF-8 encoding. *)
Definition validRune (r : Z) : Prop :=
  0 <= r <= maxRune /\ ~ (surrogateMin <= r <= surrogateMax).

(** U+FFFD in UTF-8. *)
Definition replacement : string := bytes [0xEF; 0xBF; 0xBD].

(** A task with other custom fields. *)
Definition withCustomFields (cfs : list CustomField.t) (t : Task.t) : Task.t :=
  Task.mk (Task.ID t) (Task.AssigneeStatus t) (Task.Completed t) cfs
    (Task.Name t) (Task.Notes t) (Task.DueOn t) (Task.DueAt t).

Definition numberField (name : string) (n : Z) : CustomField.t :=
  CustomField.mk 4 name "" "number" [] 0 "" n (CFEnumOptions.mk 0 "" "" false).

(** ** More fixtures *)

Definition timedOut : DoResult testWire := inr (TransportError "timeout").

(** A task whose first custom field is the number field [Points]. *)
Definition pointsTask (n : Z) : Task.t :=
  withCustomFields [numberField "Points" n; ownerField] aTask.

(** The wire of the operations on one webhook, and the answer to the
    creation of the webhook [hook]. *)
Abbreviation hookWire := (wire string (option string)).

Definition webhookCreated : DoResult hookWire :=
  inl (HttpResponse.mk 201 (Envelope (Response.mk (Some "hook") None []) None)).

(** The request [CreateWebhook] sends for the resource 7. *)
Definition createWebhookRequest : HttpRequest.t hookWire :=
  HttpRequest.mk "POST" (URL.mk (defaultBaseURL +:+ "webhooks") ∅)
    (Some (Form webhookForm))
    (<["User-Agent" := userAgent]>
       (<["Content-Type" := "application/x-www-form-urlencoded"]> ∅)).

(** * Properties *)

(** ** The store and the monad *)

Ltac finish_request :=
  unfold received, doerDo; simpl;
  repeat (case_match; simplify_eq; simpl in *; try reflexivity).

Section RequestFacts.
Context {P B W V : Type} `{Library P B} `{Doer B W} `{Decoder B V}.

Lemma lookup_snoc (h : list Filter) (f : Filter) :
  (h ++ [f]) !! length h = Some f.
Proof. by apply list_lookup_middle. Qed.

Lemma insert_snoc (h : list Filter) (f g : Filter) :
  <[length h := g]> (h ++ [f]) = h ++ [g].
Proof.
  rewrite insert_app_r_alt by lia.
  by rewrite Nat.sub_diag.
Qed.

Lemma request_run (c : Client) (method path : string) (data : option P)
    (form : option Values) (opt : ptr) (v : V) (st : state B W) (f : Filter) :
  pointee (heap st) opt = Some f ->
  request c method path data form opt v st =
    let h := heap st ++ allocated path opt f in
    match outgoing c method path data form f with
    | inr err => (Val (v, None, Some err), mkState h (world st) (trace st))
    | inl req =>
        let (r, w) := Do req (world st) in
        (Val (received r v), mkState h w (trace st ++ [(req, r)]))
    end.
Proof.
  intros Hf. destruct st as [h w tr]. simpl in *.
  unfold request, outgoing, allocated, withDefaults, addOptions, marshalEnvelope.
  destruct opt as [l|]; simpl in Hf.
  - unfold bind, ret, load, new, store; simpl. rewrite Hf.
    destruct (Nat.eqb (length (OptFields f)) 0) eqn:E; simpl.
    + rewrite Hf. simpl. rewrite lookup_snoc, insert_snoc. simpl. rewrite lookup_snoc.
      finish_request.
    + rewrite Hf, app_nil_r. finish_request.
  - unfold bind, ret, load, new, store; simpl. rewrite lookup_snoc. simpl.
    injection Hf as <-. simpl. rewrite lookup_snoc. simpl.
    replace (S (length h)) with (length (h ++ [zeroFilter])) by (rewrite length_app; simpl; lia).
    rewrite lookup_snoc. simpl. rewrite insert_snoc. simpl. rewrite lookup_snoc, <- app_assoc. simpl.
    finish_request.
Qed.

Lemma request_dangling (c : Client) (method path : string) (data : option P)
    (form : option Values) (opt : ptr) (v : V) (st : state B W) :
  pointee (heap st) opt = None ->
  request c method path data form opt v st = (Panic nilDereference, st).
Proof.
  destruct opt as [l|]; simpl; [|done].
  intros Hl. unfold request, bind, ret, load. simpl. by rewrite Hl.
Qed.

Lemma snoc_neq {A} (l : list A) (x : A) : l <> l ++ [x].
Proof.
  intros E. apply (f_equal length) in E. rewrite length_app in E. simpl in E. lia.
Qed.

(** A run of [request] that adds an exchange to the trace built the
    request from the filter it was given, and returns what [received]
    makes of the transport's answer. *)
Lemma request_exchange (c : Client) (method path : string) (data : option P)
    (form : option Values) (opt : ptr) (v : V) (st : state B W)
    (req : HttpRequest.t B) (r : DoResult B) :
  trace (request c method path data form opt v st).2 = trace st ++ [(req, r)] ->
  exists f, pointee (heap st) opt = Some f /\
    outgoing c method path data form f = inl req /\
    (request c method path data form opt v st).1 = Val (received r v).
Proof.
  destruct (pointee (heap st) opt) as [f|] eqn:Hf.
  - rewrite (request_run _ _ _ _ _ _ _ _ _ Hf). simpl.
    destruct (outgoing c method path data form f) as [req'|err] eqn:Ho; simpl.
    + destruct (Do req' (world st)) as [r' w] eqn:HD. simpl.
      intros E. apply app_inv_head in E. injection E as -> ->.
      exists f. by rewrite Ho.
    + intros E. by apply snoc_neq in E.
  - rewrite (request_dangling _ _ _ _ _ _ _ _ Hf). simpl.
    intros E. by apply snoc_neq in E.
Qed.

(** [request] only ever extends the store. *)
Lemma request_heap (c : Client) (method path : string) (data : option P)
    (form : option Values) (opt : ptr) (v : V) (st : state B W) :
  heap st `prefix_of` heap (request c method path data form opt v st).2.
Proof.
  destruct (pointee (heap st) opt) as [f|] eqn:Hf.
  - rewrite (request_run _ _ _ _ _ _ _ _ _ Hf). simpl.
    destruct (outgoing c method path data form f) as [req'|err]; simpl.
    + destruct (Do req' (world st)) as [r' w]. simpl. by apply prefix_app_r.
    + by apply prefix_app_r.
  - by rewrite (request_dangling _ _ _ _ _ _ _ _ Hf).
Qed.

(** X21.  A single [request] serves the [nil] filter as it serves a pointer
    to [Filter{}]: same result, same request to the transport, same state
    of the transport afterwards. *)
Lemma request_nil_like_zero (c : Client) (method path : string)
    (data : option P) (form : option Values) (v : V) (st : state B W) (p : nat) :
  heap st !! p = Some zeroFilter ->
  (request c method path data form None v st).1
    = (request c method path data form (Some p) v st).1 /\
  world (request c method path data form None v st).2
    = world (request c method path data form (Some p) v st).2 /\
  trace (request c method path data form None v st).2
    = trace (request c method path data form (Some p) v st).2.
Proof.
  intros Hp.
  rewrite (request_run _ _ _ _ _ None _ _ zeroFilter) by done.
  rewrite (request_run _ _ _ _ _ (Some p) _ _ zeroFilter) by done.
  simpl. destruct (outgoing c method path data form zeroFilter) as [req|err];
    [|done].
  by destruct (Do req (world st)).
Qed.
End RequestFacts.

(** ** Query values of a filter *)

Lemma Add_lookup_ne (k k' v : string) (m : Values) :
  k <> k' -> Add k v m !! k' = m !! k'.
Proof. intros Hk. unfold Add. by rewrite lookup_insert_ne. Qed.

Lemma Add_lookup_fresh (k v : string) (m : Values) :
  m !! k = None -> Add k v m !! k = Some [v].
Proof. intros Hk. unfold Add, index. by rewrite lookup_insert_eq, Hk. Qed.

Lemma addBool_lookup_ne (k k' : string) (b : bool) (m : Values) :
  k <> k' -> addBool k b m !! k' = m !! k'.
Proof. intros Hk. unfold addBool. destruct b; [by apply Add_lookup_ne | done]. Qed.

Lemma addInt_lookup_ne (k k' : string) (n : Z) (m : Values) :
  k <> k' -> addInt k n m !! k' = m !! k'.
Proof. intros Hk. unfold addInt. destruct (n =? 0); [done | by apply Add_lookup_ne]. Qed.

Lemma addString_lookup_ne (k k' s : string) (m : Values) :
  k <> k' -> addString k s m !! k' = m !! k'.
Proof.
  intros Hk. unfold addString. destruct (String.eqb s ""); [done | by apply Add_lookup_ne].
Qed.

Lemma addComma_lookup_ne (k k' : string) (l : list string) (m : Values) :
  k <> k' -> addComma k l m !! k' = m !! k'.
Proof.
  intros Hk. unfold addComma. destruct (Nat.eqb (length l) 0); [done | by apply Add_lookup_ne].
Qed.

Create Rewrite HintDb query.
#[local] Hint Rewrite addBool_lookup_ne addInt_lookup_ne addString_lookup_ne
  addComma_lookup_ne using discriminate : query.

(** The [opt_fields] parameter is the comma-joined list, and is left out
    for an empty one. *)
Lemma query_opt_fields (f : Filter) :
  query_Values f !! "opt_fields" =
    if Nat.eqb (length (OptFields f)) 0 then None
    else Some [String.concat "," (OptFields f)].
Proof.
  unfold query_Values. autorewrite with query.
  unfold addComma at 1. destruct (Nat.eqb (length (OptFields f)) 0).
  - autorewrite with query. apply lookup_empty.
  - apply Add_lookup_fresh. autorewrite with query. apply lookup_empty.
Qed.

(** The [offset] parameter is the filter's [Offset], and is left out for
    the empty string. *)
Lemma query_offset (f : Filter) :
  query_Values f !! "offset" =
    if String.eqb (Offset f) "" then None else Some [Offset f].
Proof.
  unfold query_Values. autorewrite with query.
  unfold addString at 1. destruct (String.eqb (Offset f) "").
  - autorewrite with query. apply lookup_empty.
  - apply Add_lookup_fresh. autorewrite with query. apply lookup_empty.
Qed.

Lemma defaultOptFields_nonempty (k : string) (l : list string) :
  defaultOptFields !! k = Some l -> l <> [].
Proof.
  unfold defaultOptFields. intros Hl.
  repeat (apply lookup_insert_Some in Hl as [[_ <-]|[_ Hl]]; [discriminate|]).
  by rewrite lookup_empty in Hl.
Qed.

Example query_of_zero_filter : query_Values zeroFilter = ∅.
Proof. reflexivity. Qed.

Example query_of_a_filter :
  query_Values (mkFilter true 7 0 (-3) "now" "" ["name"; "notes"] [] "off1" 50)
  = list_to_map
      [("archived", ["true"]); ("assignee", ["7"]); ("completed_since", ["now"]);
       ("limit", ["50"]); ("offset", ["off1"]); ("opt_fields", ["name,notes"]);
       ("workspace", ["-3"])].
Proof. vm_compute. reflexivity. Qed.

(** ** The response decoder and error mapper *)

Section Decoding.
Context {P B W V : Type} `{Library P B} `{Doer B W} `{Decoder B V}.

(** C3.  When the transport answers a request with status 401, [request]
    returns [ErrUnauthorized], no cursor, and leaves the destination as it
    was, whatever the body is and whatever the decoder would make of it. *)
Theorem unauthorized_regardless_of_body (c : Client) (method path : string)
    (data : option P) (form : option Values) (opt : ptr) (v : V)
    (st : state B W) (req : HttpRequest.t B) (resp : HttpResponse.t B) :
  trace (request c method path data form opt v st).2
    = trace st ++ [(req, inl resp)] ->
  HttpResponse.StatusCode resp = StatusUnauthorized ->
  (request c method path data form opt v st).1
    = Val (v, None, Some ErrUnauthorized).
Proof.
  intros Htr Hcode.
  destruct (request_exchange _ _ _ _ _ _ _ _ _ _ Htr) as (f & _ & _ & ->).
  unfold received. by rewrite Hcode.
Qed.

(** C4.  When the answer is not a 401 and the decoded envelope has error
    records, [request] returns one [Errors] value with all of them and the
    status code, whatever the status and whether or not decoding failed. *)
Theorem error_records_make_one_error (c : Client) (method path : string)
    (data : option P) (form : option Values) (opt : ptr) (v : V)
    (st : state B W) (req : HttpRequest.t B) (resp : HttpResponse.t B) :
  trace (request c method path data form opt v st).2
    = trace st ++ [(req, inl resp)] ->
  HttpResponse.StatusCode resp <> StatusUnauthorized ->
  Response.Errors (json_Decode (HttpResponse.Body resp) v).1 <> [] ->
  (request c method path data form opt v st).1
    = Val (Response.Data (json_Decode (HttpResponse.Body resp) v).1, None,
           Some (Errors (Response.Errors (json_Decode (HttpResponse.Body resp) v).1)
                        (HttpResponse.StatusCode resp))).
Proof.
  intros Htr Hcode Herrs.
  destruct (request_exchange _ _ _ _ _ _ _ _ _ _ Htr) as (f & _ & _ & ->).
  unfold received.
  destruct (Z.eqb_spec (HttpResponse.StatusCode resp) StatusUnauthorized); [done|].
  destruct (json_Decode (HttpResponse.Body resp) v) as [res err]. simpl in *.
  destruct (Response.Errors res); [done|]. reflexivity.
Qed.

(** C9.  For an answer that is not a 401, the error [request] returns is
    the [Errors] value as soon as the envelope has an error record, and the
    decoder's error is dropped; the decoder's error (or none) is returned
    exactly when the envelope has no error record. *)
Theorem error_records_before_decode_error (c : Client) (method path : string)
    (data : option P) (form : option Values) (opt : ptr) (v : V)
    (st : state B W) (req : HttpRequest.t B) (resp : HttpResponse.t B)
    (res : Response.t V) (derr : option error) :
  trace (request c method path data form opt v st).2
    = trace st ++ [(req, inl resp)] ->
  HttpResponse.StatusCode resp <> StatusUnauthorized ->
  json_Decode (HttpResponse.Body resp) v = (res, derr) ->
  (request c method path data form opt v st).1
    = Val (match Response.Errors res with
           | [] => (Response.Data res, Response.NextPage res, derr)
           | _ :: _ =>
               (Response.Data res, None,
                Some (Errors (Response.Errors res) (HttpResponse.StatusCode resp)))
           end).
Proof.
  intros Htr Hcode Hdec.
  destruct (request_exchange _ _ _ _ _ _ _ _ _ _ Htr) as (f & _ & _ & ->).
  unfold received.
  destruct (Z.eqb_spec (HttpResponse.StatusCode resp) StatusUnauthorized); [done|].
  rewrite Hdec.
  by destruct (Response.Errors res).
Qed.
End Decoding.

(** ** The request builder *)

Section Building.
Context {P B W V : Type} `{Library P B} `{Doer B W} `{Decoder B V}.

(** C7.  The request that goes out has, when a payload is given, the
    envelope of the payload as its body, which is the JSON object whose one
    field [data] holds the marshalled payload, and the JSON content type,
    and the call runs as it does without the form; with a form and no
    payload, the encoded form and the form content type; with neither, no
    body and no content type. *)
Theorem payload_before_form (c : Client) (method path : string)
    (data : option P) (form : option Values) (opt : ptr) (v : V)
    (st : state B W) (req : HttpRequest.t B) (r : DoResult B) :
  trace (request c method path data form opt v st).2 = trace st ++ [(req, r)] ->
  match data, form with
  | Some d, _ =>
      (exists b, json_Marshal d = inl b /\
         HttpRequest.Body req = Some (json_Object [("data", b)])) /\
      HttpRequest.Header req !! "Content-Type" = Some "application/json" /\
      request c method path (Some d) form opt v st
        = request c method path (Some d) None opt v st
  | None, Some fm =>
      HttpRequest.Body req = Some (form_Encode fm) /\
      HttpRequest.Header req !! "Content-Type"
        = Some "application/x-www-form-urlencoded"
  | None, None =>
      HttpRequest.Body req = None /\
      HttpRequest.Header req !! "Content-Type" = None
  end.
Proof.
  intros Htr.
  destruct (request_exchange _ _ _ _ _ _ _ _ _ _ Htr) as (f & _ & Hout & _).
  unfold outgoing in Hout.
  destruct (url_Parse path); [done|].
  destruct (url_reParse _); [done|].
  destruct data as [d|]; [|destruct form as [fm|]].
  - destruct (json_Marshal d) as [b|]; [|done].
    destruct (http_NewRequest _ _); [done|].
    injection Hout as <-. simpl. eauto.
  - destruct (http_NewRequest _ _); [done|].
    injection Hout as <-. simpl. done.
  - destruct (http_NewRequest _ _); [done|].
    injection Hout as <-. simpl. done.
Qed.
End Building.

Section Defaults.
Context {P B W V : Type} `{Library P B} `{Doer B W} `{Decoder B V}.

(** C6, amended.  The [opt_fields] parameter of the request that goes out:
    for a filter without field selection it is the default list that
    [defaultOptFields] has under the path itself, and absent when the path
    is not a key of the table; for a filter with a field selection it is
    the caller's list. *)
Theorem default_fields_for_exact_path (c : Client) (method path : string)
    (data : option P) (form : option Values) (opt : ptr) (v : V)
    (st : state B W) (f : Filter) (req : HttpRequest.t B) (r : DoResult B) :
  pointee (heap st) opt = Some f ->
  trace (request c method path data form opt v st).2 = trace st ++ [(req, r)] ->
  URL.RawQuery (HttpRequest.URL req) !! "opt_fields" =
    match OptFields f with
    | [] => (fun l => [String.concat "," l]) <$> defaultOptFields !! path
    | _ :: _ => Some [String.concat "," (OptFields f)]
    end.
Proof.
  intros Hf Htr.
  destruct (request_exchange _ _ _ _ _ _ _ _ _ _ Htr) as (f' & Hf' & Hout & _).
  rewrite Hf in Hf'. injection Hf' as <-.
  assert (URL.RawQuery (HttpRequest.URL req)
          = query_Values (withDefaults path f)) as ->.
  { unfold outgoing in Hout.
    repeat (case_match; simplify_eq); reflexivity. }
  rewrite query_opt_fields. unfold withDefaults.
  destruct (OptFields f) as [|x l] eqn:Hl; simpl; [|by rewrite Hl].
  unfold index. destruct (defaultOptFields !! path) as [d|] eqn:Hd; simpl.
  - apply defaultOptFields_nonempty in Hd. by destruct d.
  - reflexivity.
Qed.
End Defaults.

Section Looping.
Context {P B W E : Type} `{Library P B} `{Doer B W} `{Decoder B (list E)}.

Lemma pagenate_S (fuel : nat) (c : Client) (path : string) (opt : ptr)
    (v : list E) (st : state B W) :
  pagenate (P := P) (S fuel) c path opt v st =
    match request (P := P) c "GET" path None None opt [] st with
    | (Val (page, next, err), st') =>
        match err with
        | Some err => (Val (v, Some err), st')
        | None =>
            match next with
            | None => (Val (v ++ page, None), st')
            | Some next =>
                (newOpt <- load opt ;;
                 opt <- new newOpt ;;
                 _ <- store opt (setOffset (NextPage.Offset next)) ;;
                 pagenate (P := P) fuel c path opt (v ++ page)) st'
            end
        end
    | (Panic msg, st') => (Panic msg, st')
    | (Exhausted, st') => (Exhausted, st')
    end.
Proof.
  simpl. unfold bind at 1.
  destruct (request c "GET" path None None opt [] st) as [[[[page next] err]| |] st'];
    try reflexivity.
  destruct err; [reflexivity|]. destruct next; reflexivity.
Qed.

Lemma GetWebhooks_loop_S (fuel : nat) (c : Client) (opt : ptr)
    (v : list E) (st : state B W) :
  GetWebhooks_loop (P := P) (S fuel) c opt v st =
    match request (P := P) c "GET" "webhooks" None None opt [] st with
    | (Val (page, next, err), st') =>
        match err with
        | Some err => (Val (None, Some err), st')
        | None =>
            match next with
            | None => (Val (Some (v ++ page), None), st')
            | Some next =>
                (newOpt <- load opt ;;
                 opt <- new newOpt ;;
                 _ <- store opt (setOffset (NextPage.Offset next)) ;;
                 GetWebhooks_loop (P := P) fuel c opt (v ++ page)) st'
            end
        end
    | (Panic msg, st') => (Panic msg, st')
    | (Exhausted, st') => (Exhausted, st')
    end.
Proof.
  simpl. unfold bind at 1.
  destruct (request c "GET" "webhooks" None None opt [] st) as [[[[page next] err]| |] st'];
    try reflexivity.
  destruct err; [reflexivity|]. destruct next; reflexivity.
Qed.

Lemma listAll_pagenate (fuel : nat) (c : Client) (path : string) (opt : ptr)
    (st : state B W) :
  listAll (P := P) fuel c path opt st
  = returned (pagenate (P := P) fuel c path opt [] st).
Proof.
  unfold listAll, bind, returned.
  destruct (pagenate fuel c path opt [] st) as [[[rets [err|]]| |] st']; reflexivity.
Qed.

(** The loop written out in [GetWebhooks] is the loop of [pagenate]. *)
Lemma GetWebhooks_loop_pagenate (fuel : nat) (c : Client) :
  forall (opt : ptr) (v : list E) (st : state B W),
    GetWebhooks_loop (P := P) fuel c opt v st
    = returned (pagenate (P := P) fuel c "webhooks" opt v st).
Proof.
  induction fuel as [|fuel IH]; intros opt v st; [reflexivity|].
  rewrite GetWebhooks_loop_S, pagenate_S.
  destruct (request c "GET" "webhooks" None None opt [] st) as [[[[page next] err]| |] st'];
    try reflexivity.
  destruct err; [reflexivity|]. destruct next as [next|]; [|reflexivity].
  unfold bind.
  destruct (load opt st') as [[newOpt| |] st1]; try reflexivity.
  destruct (new newOpt st1) as [[opt'| |] st2]; try reflexivity.
  destruct (store opt' (setOffset (NextPage.Offset next)) st2) as [[[]| |] st3];
    try reflexivity.
  apply IH.
Qed.

Lemma runList_pagenate (op : listOperation) (fuel : nat) (c : Client)
    (opt : ptr) (st : state B W) :
  runList (P := P) op fuel c opt st
  = returned (pagenate (P := P) fuel c (listPath op) opt [] st).
Proof.
  destruct op; try apply listAll_pagenate. apply GetWebhooks_loop_pagenate.
Qed.

(** [pagenate] only ever extends the store. *)
Lemma pagenate_heap (fuel : nat) (c : Client) (path : string) :
  forall (opt : ptr) (v : list E) (st : state B W),
    heap st `prefix_of` heap (pagenate (P := P) fuel c path opt v st).2.
Proof.
  induction fuel as [|fuel IH]; intros opt v st; [reflexivity|].
  rewrite pagenate_S.
  pose proof (request_heap (P := P) c "GET" path None None opt [] st) as Hreq.
  destruct (request c "GET" path None None opt [] st) as [[[[page next] err]| |] st'];
    try exact Hreq.
  destruct err; [exact Hreq|]. destruct next as [next|]; [|exact Hreq].
  simpl in Hreq. unfold bind, load, new, store.
  destruct opt as [l|]; [|exact Hreq].
  destruct (heap st' !! l) as [g|]; [|exact Hreq].
  simpl. rewrite lookup_snoc, insert_snoc.
  etrans; [|apply IH]. simpl. etrans; [exact Hreq|]. by apply prefix_app_r.
Qed.

Lemma returned_state (r : outcome (list E * option error) * state B W) :
  (returned r).2 = r.2.
Proof. by destruct r as [[[rets [err|]]| |] st]. Qed.
End Looping.

(** ** The pagination driver *)

Lemma setOffset_setOffset (o o' : string) (f : Filter) :
  setOffset o (setOffset o' f) = setOffset o f.
Proof. reflexivity. Qed.

Section Serving.
Context {B W : Type} `{Doer B W}.

Lemma serves_snoc (w w' : W) (xs : list (HttpRequest.t B * DoResult B))
    (req : HttpRequest.t B) (r : DoResult B) :
  serves w (xs ++ [(req, r)]) w' ->
  exists w1, serves w xs w1 /\ Do req w1 = (r, w').
Proof.
  revert w. induction xs as [|[req' r'] xs IH]; intros w Hs.
  - inversion Hs as [|? ? ? w1 ? ? HD Hs']; subst.
    inversion Hs'; subst. exists w. split; [constructor | exact HD].
  - inversion Hs as [|? ? ? w1 ? ? HD Hs']; subst.
    destruct (IH _ Hs') as (w2 & Hs2 & HD2).
    exists w2. split; [econstructor; eauto | exact HD2].
Qed.

(** The scripted transport serves its script. *)
Lemma scripted_serves (rs rest : list (DoResult B))
    (reqs : list (HttpRequest.t B)) :
  length rs = length reqs ->
  serves (H := scripted B) (rs ++ rest) (zip reqs rs) rest.
Proof.
  revert reqs. induction rs as [|r rs IH]; intros [|req reqs] Hlen;
    try discriminate; [constructor|].
  simpl. econstructor; [reflexivity|]. apply IH. by injection Hlen.
Qed.
End Serving.

Section Paging.
Context {P B W E : Type} `{Library P B} `{Doer B W} `{Decoder B (list E)}.

Lemma constructible_outgoing (c : Client) (path : string) (f : Filter) :
  constructible (P := P) c path ->
  outgoing (P := P) c "GET" path None None f = inl (listRequest c path f).
Proof.
  intros [Hparse Hq]. unfold outgoing. rewrite Hparse.
  destruct (Hq (query_Values (withDefaults path f))) as [-> ->]. reflexivity.
Qed.

Lemma received_page (r : DoResult B) (data : list E) (next : option NextPage.t) :
  isPage r data next -> received r [] = (data, next, None).
Proof.
  intros (resp & -> & Hcode & Hdec). unfold received.
  destruct (Z.eqb_spec (HttpResponse.StatusCode resp) StatusUnauthorized); [done|].
  by rewrite Hdec.
Qed.

Lemma received_failure (r : DoResult B) (err : error) :
  failsWith r err -> exists page next, received r [] = (page, next, Some err).
Proof.
  destruct 1 as [err|resp Hcode|resp res derr Hcode Hdec Herrs|resp res err Hcode Hdec Herrs];
    unfold received.
  - eauto.
  - rewrite Hcode. simpl. eauto.
  - destruct (Z.eqb_spec (HttpResponse.StatusCode resp) StatusUnauthorized); [done|].
    rewrite Hdec. destruct (Response.Errors res); [done|]. simpl. eauto.
  - destruct (Z.eqb_spec (HttpResponse.StatusCode resp) StatusUnauthorized); [done|].
    rewrite Hdec, Herrs. simpl. eauto.
Qed.

(** One round of the loop, for the three things the transport's answer can
    be. *)
Lemma request_sent (c : Client) (path : string) (p : nat) (g : Filter)
    (h : list Filter) (w w1 : W) (r : DoResult B)
    (tr : list (HttpRequest.t B * DoResult B)) :
  h !! p = Some g ->
  constructible (P := P) c path ->
  Do (listRequest c path g) w = (r, w1) ->
  request (P := P) c "GET" path None None (Some p) [] (mkState h w tr)
  = (Val (received r []),
     mkState (h ++ allocated path (Some p) g) w1 (tr ++ [(listRequest c path g, r)])).
Proof.
  intros Hp Hc HD.
  rewrite (request_run _ _ _ _ _ _ _ _ g) by done.
  simpl. rewrite constructible_outgoing by done. by rewrite HD.
Qed.

Lemma pagenate_failure (fuel : nat) (c : Client) (path : string) (p : nat)
    (g : Filter) (h : list Filter) (w w1 : W) (r : DoResult B)
    (tr : list (HttpRequest.t B * DoResult B)) (acc : list E) (err : error) :
  h !! p = Some g ->
  constructible (P := P) c path ->
  Do (listRequest c path g) w = (r, w1) ->
  failsWith r err ->
  pagenate (P := P) (S fuel) c path (Some p) acc (mkState h w tr)
  = (Val (acc, Some err),
     mkState (h ++ allocated path (Some p) g) w1 (tr ++ [(listRequest c path g, r)])).
Proof.
  intros Hp Hc HD Hr. rewrite pagenate_S, (request_sent _ _ _ g _ _ w1 r) by done.
  destruct (received_failure _ _ Hr) as (page & next & ->). reflexivity.
Qed.

Lemma pagenate_last (fuel : nat) (c : Client) (path : string) (p : nat)
    (g : Filter) (h : list Filter) (w w1 : W) (r : DoResult B)
    (tr : list (HttpRequest.t B * DoResult B)) (acc data : list E) :
  h !! p = Some g ->
  constructible (P := P) c path ->
  Do (listRequest c path g) w = (r, w1) ->
  isPage r data None ->
  pagenate (P := P) (S fuel) c path (Some p) acc (mkState h w tr)
  = (Val (acc ++ data, None),
     mkState (h ++ allocated path (Some p) g) w1 (tr ++ [(listRequest c path g, r)])).
Proof.
  intros Hp Hc HD Hr. rewrite pagenate_S, (request_sent _ _ _ g _ _ w1 r) by done.
  by rewrite (received_page _ _ _ Hr).
Qed.

Lemma pagenate_next (fuel : nat) (c : Client) (path : string) (p : nat)
    (g : Filter) (h : list Filter) (w w1 : W) (r : DoResult B)
    (tr : list (HttpRequest.t B * DoResult B)) (acc data : list E)
    (next : NextPage.t) :
  h !! p = Some g ->
  constructible (P := P) c path ->
  Do (listRequest c path g) w = (r, w1) ->
  isPage r data (Some next) ->
  pagenate (P := P) (S fuel) c path (Some p) acc (mkState h w tr)
  = pagenate (P := P) fuel c path
      (Some (length (h ++ allocated path (Some p) g))) (acc ++ data)
      (mkState ((h ++ allocated path (Some p) g)
                  ++ [setOffset (NextPage.Offset next) g])
         w1 (tr ++ [(listRequest c path g, r)])).
Proof.
  intros Hp Hc HD Hr. rewrite pagenate_S, (request_sent _ _ _ g _ _ w1 r) by done.
  rewrite (received_page _ _ _ Hr).
  unfold bind, load, new, store. simpl.
  rewrite (lookup_app_l_Some _ _ _ _ Hp). simpl.
  by rewrite lookup_snoc, insert_snoc.
Qed.

Lemma lastFilter_cons (g : Filter) (next : NextPage.t) (cursors : list NextPage.t) :
  lastFilter (setOffset (NextPage.Offset next) g) cursors
  = lastFilter g (next :: cursors).
Proof.
  unfold lastFilter. rewrite last_cons. by destruct (last cursors).
Qed.

(** Following a run of pages that all carry a cursor. *)
Lemma pagenate_pages (c : Client) (path : string) (rs : list (DoResult B))
    (pages : list (list E * NextPage.t)) :
  constructible (P := P) c path ->
  Forall2 (fun r pg => isPage r pg.1 (Some pg.2)) rs pages ->
  forall (fuel p : nat) (g : Filter) (h : list Filter) (w w1 : W)
         (tr : list (HttpRequest.t B * DoResult B)) (acc : list E),
    h !! p = Some g ->
    serves w (zip (map (listRequest (B := B) c path) (advance g pages.*2)) rs) w1 ->
    exists (h' : list Filter) (p' : nat),
      h `prefix_of` h' /\
      h' !! p' = Some (lastFilter g pages.*2) /\
      pagenate (P := P) (length rs + fuel)%nat c path (Some p) acc
        (mkState h w tr)
      = pagenate (P := P) fuel c path (Some p') (acc ++ concat pages.*1)
          (mkState h' w1
             (tr ++ zip (map (listRequest c path) (advance g pages.*2)) rs)).
Proof.
  intros Hc. induction 1 as [|r [data next] rs pages Hr _ IH];
    intros fuel p g h w w1 tr acc Hp Hs.
  - inversion Hs; subst. exists h, p. simpl. by rewrite !app_nil_r.
  - simpl in Hr.
    change (zip (map (listRequest (B := B) c path)
                   (advance g ((data, next) :: pages).*2)) (r :: rs))
      with ((listRequest (B := B) c path g, r)
              :: zip (map (listRequest (B := B) c path)
                        (advance (setOffset (NextPage.Offset next) g) pages.*2))
                   rs) in Hs |- *.
    inversion Hs as [|? ? ? w2 ? ? HD Hs']; subst.
    change (length (r :: rs) + fuel)%nat with (S (length rs + fuel)).
    rewrite (pagenate_next _ _ _ _ g _ _ w2 r _ _ data next) by done.
    destruct (IH fuel (length (h ++ allocated path (Some p) g))
                (setOffset (NextPage.Offset next) g)
                ((h ++ allocated path (Some p) g)
                   ++ [setOffset (NextPage.Offset next) g])
                w2 w1 (tr ++ [(listRequest c path g, r)]) (acc ++ data))
      as (h' & p' & Hh & Hp' & ->); [apply lookup_snoc | exact Hs' |].
    exists h', p'. split; [|split].
    + etrans; [|exact Hh]. rewrite <- app_assoc. by apply prefix_app_r.
    + by rewrite Hp', lastFilter_cons.
    + simpl. by rewrite <- !app_assoc.
Qed.

Lemma advance_snoc (f : Filter) (cursors : list NextPage.t) :
  exists l, advance f cursors = l ++ [lastFilter f cursors] /\
    length l = length cursors.
Proof.
  unfold advance, lastFilter.
  destruct cursors as [|next cursors _] using rev_ind.
  - by exists [].
  - exists (f :: map (fun next => setOffset (NextPage.Offset next) f) cursors).
    rewrite last_snoc, map_app. split; [done|].
    simpl. rewrite length_map, length_app. simpl. lia.
Qed.

Lemma zip_advance (c : Client) (path : string) (f : Filter)
    (cursors : list NextPage.t) (rs : list (DoResult B)) (r : DoResult B) :
  length rs = length cursors ->
  zip (map (listRequest (B := B) c path) (advance f cursors)) (rs ++ [r])
  = zip (map (listRequest (B := B) c path) (advance f cursors)) rs
      ++ [(listRequest c path (lastFilter f cursors), r)].
Proof.
  intros Hlen. destruct (advance_snoc f cursors) as (l & -> & Hl).
  rewrite map_app. simpl.
  rewrite (zip_with_app pair _ _ rs [r]) by (rewrite length_map; lia).
  rewrite <- (app_nil_r rs) at 2.
  rewrite (zip_with_app pair _ _ rs []) by (rewrite length_map; lia).
  simpl. by rewrite app_nil_r.
Qed.

Lemma length_zip_advance (c : Client) (path : string) (f : Filter)
    (cursors : list NextPage.t) (rs : list (DoResult B)) (r : DoResult B) :
  length rs = length cursors ->
  length (zip (map (listRequest (B := B) c path) (advance f cursors)) (rs ++ [r]))
  = S (length cursors).
Proof.
  intros Hlen. rewrite length_zip_with, length_map, length_app. unfold advance.
  rewrite length_cons, length_map. change (length [r]) with 1%nat. lia.
Qed.

Lemma one_exchange {A} (x y : A) (earlier later : list A) :
  [x] = earlier ++ y :: later -> earlier = [] /\ later = [] /\ x = y.
Proof.
  destruct earlier as [|z earlier]; simpl; intros Heq.
  - by injection Heq as -> <-.
  - injection Heq as _ Heq. by destruct earlier.
Qed.

Lemma received_no_failure (r : DoResult B) (page : list E)
    (next : option NextPage.t) (err : error) :
  received r [] = (page, next, None) -> ~ failsWith r err.
Proof.
  intros Hrec Hfail.
  destruct (received_failure _ _ Hfail) as (page' & next' & Hrec'). congruence.
Qed.

(** What [pagenate] adds to the trace, and where a failure can be in it:
    at the end, with the loop left through the [return] of the error. *)
Lemma pagenate_stops (fuel : nat) (c : Client) (path : string) :
  forall (opt : ptr) (v : list E) (st : state B W),
    exists added,
      trace (pagenate (P := P) fuel c path opt v st).2 = trace st ++ added /\
      forall earlier req r later err,
        added = earlier ++ (req, r) :: later ->
        failsWith r err ->
        later = [] /\
        (exists rets,
           (pagenate (P := P) fuel c path opt v st).1 = Val (rets, Some err)) /\
        exists w, Do req w = (r, world (pagenate (P := P) fuel c path opt v st).2).
Proof.
  assert (forall (tr : list (HttpRequest.t B * DoResult B)) (Q : Prop),
            forall earlier (x : HttpRequest.t B * DoResult B) later,
              [] = earlier ++ x :: later -> Q) as Hnone
    by (intros tr Q [|? ?] ? ? ?; discriminate).
  induction fuel as [|fuel IH]; intros opt v st.
  { exists []. split; [by rewrite app_nil_r | intros; by eapply Hnone]. }
  remember (pagenate (P := P) (S fuel) c path opt v st) as run eqn:Hrun.
  rewrite pagenate_S in Hrun.
  destruct (pointee (heap st) opt) as [g|] eqn:Hg.
  2: { rewrite request_dangling in Hrun by done. subst run. exists [].
       split; [by rewrite app_nil_r | intros; by eapply Hnone]. }
  rewrite (request_run _ _ _ _ _ _ _ _ g) in Hrun by done. simpl in Hrun.
  destruct (outgoing c "GET" path None None g) as [req0|e].
  2: { subst run. exists [].
       split; [by rewrite app_nil_r | intros; by eapply Hnone]. }
  destruct (Do req0 (world st)) as [r0 w1] eqn:HD.
  destruct (received r0 []) as [[page next] e] eqn:Hrec.
  assert (forall earlier req r later err,
            [(req0, r0)] = earlier ++ (req, r) :: later ->
            failsWith r err ->
            later = [] /\ e = Some err /\ Do req (world st) = (r, w1)) as Hone.
  { intros earlier req r later err Heq Hfail.
    apply one_exchange in Heq as (_ & -> & Heq). injection Heq as <- <-.
    destruct (received_failure _ _ Hfail) as (page' & next' & Hrec').
    rewrite Hrec in Hrec'. by injection Hrec' as _ _ ->. }
  destruct e as [e|].
  { subst run. exists [(req0, r0)]. split; [done|].
    intros earlier req r later err Heq Hfail.
    destruct (Hone _ _ _ _ _ Heq Hfail) as (-> & [= ->] & HD').
    split; [done|]. split; [by exists v | by exists (world st)]. }
  destruct next as [next|].
  2: { subst run. exists [(req0, r0)]. split; [done|].
       intros earlier req r later err Heq Hfail.
       by destruct (Hone _ _ _ _ _ Heq Hfail) as (_ & ? & _). }
  unfold bind at 1 in Hrun. unfold load at 1 in Hrun.
  destruct opt as [l|]; simpl in Hrun.
  2: { subst run. exists [(req0, r0)]. split; [done|].
       intros earlier req r later err Heq Hfail.
       by destruct (Hone _ _ _ _ _ Heq Hfail) as (_ & ? & _). }
  simpl in Hg. rewrite (lookup_app_l_Some _ _ _ _ Hg) in Hrun.
  unfold bind, new, store in Hrun. simpl in Hrun.
  rewrite lookup_snoc, insert_snoc in Hrun. subst run.
  destruct (IH (Some (length (heap st ++ allocated path (Some l) g)))
              (v ++ page)
              (mkState ((heap st ++ allocated path (Some l) g)
                          ++ [setOffset (NextPage.Offset next) g])
                 w1 (trace st ++ [(req0, r0)])))
    as (added & Htr & Hstop).
  exists ((req0, r0) :: added). split.
  { rewrite Htr. simpl. by rewrite <- app_assoc. }
  intros earlier req r later err Heq Hfail.
  destruct earlier as [|x earlier]; simpl in Heq.
  - injection Heq as <- <- _.
    by destruct (Hone [] req0 r0 [] err eq_refl Hfail) as (_ & ? & _).
  - injection Heq as _ Heq. exact (Hstop earlier req r later err Heq Hfail).
Qed.

(** C2.  Whenever a list operation gets a failure for an answer (an error
    of the transport, a 401, error records in the envelope, or a decoder
    error), the operation returns that failure's error and the [nil] slice.
    The failed exchange is the last one of the run, and the transport is
    left as that exchange left it: nothing was asked of it afterwards.
    This is so for every filter pointer, [nil] included, for every
    transport and for every bound on the loop. *)
Theorem listing_stops_at_failure (op : listOperation) (fuel : nat)
    (c : Client) (opt : ptr) (st : state B W)
    (earlier later : list (HttpRequest.t B * DoResult B))
    (req : HttpRequest.t B) (r : DoResult B) (err : error) :
  trace (runList (P := P) (E := E) op fuel c opt st).2
    = trace st ++ earlier ++ (req, r) :: later ->
  failsWith (E := E) r err ->
  later = [] /\
  (runList (P := P) (E := E) op fuel c opt st).1 = Val (None, Some err) /\
  exists w, Do req w = (r, world (runList (P := P) (E := E) op fuel c opt st).2).
Proof.
  rewrite runList_pagenate, returned_state. intros Htr Hfail.
  destruct (pagenate_stops fuel c (listPath op) opt [] st) as (added & Hadded & Hstop).
  rewrite Hadded in Htr. apply app_inv_head in Htr.
  destruct (Hstop _ _ _ _ _ Htr Hfail) as (Hlater & (rets & Hval) & w & HD).
  split; [done|]. split; [|by exists w].
  destruct (pagenate fuel c (listPath op) opt [] st) as [[[rets' [err'|]]| |] st'];
    simpl in *; by simplify_eq.
Qed.
End Paging.

Section Frame.
Context {P B W V E : Type} `{Library P B} `{Doer B W} `{Decoder B V}
  `{Decoder B (list E)}.

(** C5.  A filter that is in the store when [request] or a list operation
    is called is the same filter when the call is over, however the call
    ends: the defaults and the cursor offsets are written to structs the
    call has allocated itself. *)
Theorem caller_filter_is_not_written (p : nat) (f : Filter) (st : state B W)
    (c : Client) (method path : string) (data : option P)
    (form : option Values) (opt : ptr) (v : V)
    (op : listOperation) (fuel : nat) :
  heap st !! p = Some f ->
  heap (request c method path data form opt v st).2 !! p = Some f /\
  heap (runList (P := P) (E := E) op fuel c opt st).2 !! p = Some f.
Proof.
  intros Hp. split.
  - eapply prefix_lookup_Some; [exact Hp | apply request_heap].
  - rewrite runList_pagenate, returned_state.
    eapply prefix_lookup_Some; [exact Hp | apply pagenate_heap].
Qed.
End Frame.

(** ** Custom fields *)

Lemma rangeCustomFields_find (cfs : list CustomField.t) (name : string) :
  rangeCustomFields cfs name =
    match List.find (answers name) cfs with
    | Some cf => (fieldValue cf, None)
    | None => ("", Some (notFound name))
    end.
Proof.
  induction cfs as [|cf cfs IH]; [reflexivity|].
  simpl. unfold answers at 1, recognized.
  destruct (String.eqb (CustomField.Name cf) name); simpl; [|exact IH].
  destruct (String.eqb (CustomField.Type_ cf) "enum") eqn:Eenum; simpl.
  { unfold fieldValue. by rewrite Eenum. }
  destruct (String.eqb (CustomField.Type_ cf) "text") eqn:Etext; simpl.
  { unfold fieldValue. by rewrite Eenum, Etext. }
  destruct (String.eqb (CustomField.Type_ cf) "number") eqn:Enumber; simpl.
  { unfold fieldValue. by rewrite Eenum, Etext. }
  exact IH.
Qed.

Lemma answers_spec (name : string) (cf : CustomField.t) :
  answers name cf = true <->
  CustomField.Name cf = name /\
  (CustomField.Type_ cf = "enum" \/ CustomField.Type_ cf = "text"
   \/ CustomField.Type_ cf = "number").
Proof.
  unfold answers, recognized.
  rewrite andb_true_iff, !orb_true_iff, !String.eqb_eq. tauto.
Qed.

(** C10.  [GetCustomFieldValue] returns the value of the first custom field,
    in slice order, whose name is [name] and whose type is enum, text or
    number, and no error; fields of another type are passed over.  When
    there is no such field it returns the not-found error.  So a value
    comes back without error exactly when such a field exists.  (The method
    reads the task and writes nothing: it is a function of the task.) *)
Theorem custom_field_value_of_first_recognized (t : Task.t) (name : string) :
  GetCustomFieldValue t name =
    match List.find (answers name) (Task.CustomFields t) with
    | Some cf => (fieldValue cf, None)
    | None => ("", Some (notFound name))
    end /\
  ((exists s, GetCustomFieldValue t name = (s, None)) <->
   (exists cf, In cf (Task.CustomFields t) /\
      CustomField.Name cf = name /\
      (CustomField.Type_ cf = "enum" \/ CustomField.Type_ cf = "text"
       \/ CustomField.Type_ cf = "number"))).
Proof.
  unfold GetCustomFieldValue. rewrite rangeCustomFields_find. split; [reflexivity|].
  destruct (List.find (answers name) (Task.CustomFields t)) as [cf|] eqn:Hfind.
  - apply List.find_some in Hfind as [Hin Hcf]. apply answers_spec in Hcf.
    split; eauto.
  - split; [intros [s Hs]; discriminate|].
    intros (cf & Hin & Hcf).
    pose proof (List.find_none _ _ Hfind cf Hin) as Hno.
    apply answers_spec in Hcf. congruence.
Qed.

Example owner_of_task : GetCustomFieldValue aTask "Owner" = ("Ada", None).
Proof. reflexivity. Qed.

Example missing_of_task :
  GetCustomFieldValue aTask "Status"
  = ("", Some (Errorf "Custom field 'Status' not found")).
Proof. reflexivity. Qed.

Example number_as_text : intstring 65 = "A" /\ intstring 8364 = bytes [0xE2; 0x82; 0xAC].
Proof. split; reflexivity. Qed.

(** ** The statements on the fixtures *)

Lemma constructible_on_wire (c : Client) (path : string) :
  constructible (P := string) (B := testWire) c path.
Proof. split; [reflexivity|]. intros q. split; reflexivity. Qed.

Lemma firstPage_isPage : isPage firstPage ["a"; "b"] (Some (cursor "off1")).
Proof. eexists. split; [reflexivity|]. split; [discriminate | reflexivity]. Qed.

Lemma secondPage_isPage : isPage secondPage ["c"] None.
Proof. eexists. split; [reflexivity|]. split; [discriminate | reflexivity]. Qed.

Lemma unauthorized_regardless_of_body_witness :
  (request (P := string) NewClient "GET" "tasks" None None None []
     (mkState [] [inl unauthorizedResponse] [])).1
  = Val ([], None, Some ErrUnauthorized).
Proof.
  eapply unauthorized_regardless_of_body; reflexivity.
Defined.

Lemma error_records_make_one_error_witness :
  (request (P := string) NewClient "GET" "tasks/42" None None None []
     (mkState [] [inl errorResponse] [])).1
  = Val ([], None, Some (Errors [notFoundRecord] 200)).
Proof.
  exact (error_records_make_one_error (P := string) NewClient "GET" "tasks/42"
           None None None [] (mkState [] [inl errorResponse] [])
           (listRequest NewClient "tasks/42" zeroFilter) errorResponse
           eq_refl ltac:(discriminate) ltac:(discriminate)).
Defined.

Lemma error_records_before_decode_error_witness :
  (request (P := string) NewClient "GET" "tasks/42" None None None []
     (mkState [] [inl brokenErrorResponse] [])).1
  = Val ([], None, Some (Errors [notFoundRecord] 200)).
Proof.
  exact (error_records_before_decode_error (P := string) NewClient "GET"
           "tasks/42" None None None [] (mkState [] [inl brokenErrorResponse] [])
           (listRequest NewClient "tasks/42" zeroFilter) brokenErrorResponse
           (Response.mk [] None [notFoundRecord])
           (Some (DecodeError "cannot unmarshal string into Go value"))
           eq_refl ltac:(discriminate) eq_refl).
Defined.

Lemma payload_before_form_witness :
  (exists b, json_Marshal "payload" = inl b /\
     HttpRequest.Body webhookRequest = Some (json_Object [("data", b)])) /\
  HttpRequest.Header webhookRequest !! "Content-Type" = Some "application/json" /\
  request NewClient "POST" "webhooks" (Some "payload") (Some webhookForm) None
    ([] : list string) (mkState [] twoPages [])
  = request NewClient "POST" "webhooks" (Some "payload") None None []
      (mkState [] twoPages []).
Proof.
  exact (payload_before_form NewClient "POST" "webhooks" (Some "payload")
           (Some webhookForm) None [] (mkState [] twoPages [])
           webhookRequest firstPage eq_refl).
Defined.

Lemma default_fields_for_exact_path_witness :
  URL.RawQuery (HttpRequest.URL (listRequest (B := testWire) NewClient "tasks" zeroFilter))
    !! "opt_fields"
  = Some ["name,assignee,assignee_status,completed,parent"].
Proof.
  exact (default_fields_for_exact_path (P := string) NewClient "GET" "tasks"
           None None (Some 0%nat) ([] : list string)
           (mkState [zeroFilter] twoPages []) zeroFilter
           (listRequest NewClient "tasks" zeroFilter) firstPage eq_refl eq_refl).
Defined.

(** C6 as the specification has it fails: [GetTask] asks for [tasks/42],
    whose prefix [tasks] is a key of the table, with a filter without field
    selection, and the one request that goes out has no [opt_fields]. *)
Lemma default_fields_by_prefix_counterexample :
  OptFields zeroFilter = [] /\
  resourcePrefix ("tasks/" +:+ pretty 42) = "tasks" /\
  defaultOptFields !! "tasks"
    = Some ["name"; "assignee"; "assignee_status"; "completed"; "parent"] /\
  map (fun x => URL.RawQuery (HttpRequest.URL x.1) !! "opt_fields")
    (trace (GetTask (P := string) NewClient 42 (Some 0%nat) []
              (mkState [zeroFilter] [secondPage] [])).2)
  = [None].
Proof. repeat split; vm_compute; reflexivity. Qed.

(** The two requests [ListTasks] sends for the two pages, on the wire: the
    second carries the offset of the first page's cursor. *)
Example two_pages_offsets :
  map (fun x => URL.RawQuery (HttpRequest.URL x.1) !! "offset")
    (trace (runList (P := string) Tasks 2 NewClient (Some 0%nat)
              (mkState [zeroFilter] twoPages [])).2)
  = [None; Some ["off1"]].
Proof. vm_compute. reflexivity. Qed.

Lemma listing_stops_at_failure_witness :
  @nil (HttpRequest.t testWire * DoResult testWire) = [] /\
  (runList (P := string) (E := string) Tasks 5 NewClient None
     (mkState [] [inl unauthorizedResponse; secondPage] [])).1
  = Val (None, Some ErrUnauthorized) /\
  exists w,
    Do (listRequest NewClient "tasks" zeroFilter) w
    = (inl unauthorizedResponse,
       world (runList (P := string) (E := string) Tasks 5 NewClient None
                (mkState [] [inl unauthorizedResponse; secondPage] [])).2).
Proof.
  apply (listing_stops_at_failure (P := string) (E := string) Tasks 5 NewClient
           None (mkState [] [inl unauthorizedResponse; secondPage] []) [] []
           (listRequest NewClient "tasks" zeroFilter) (inl unauthorizedResponse)
           ErrUnauthorized).
  - reflexivity.
  - by apply authenticationFailure.
Defined.

Lemma caller_filter_is_not_written_witness :
  heap (request (P := string) NewClient "GET" "tasks" None None (Some 0%nat) []
          (mkState [zeroFilter] twoPages [])).2 !! 0%nat
  = Some zeroFilter /\
  heap (runList (P := string) (E := string) Tasks 2 NewClient (Some 0%nat)
          (mkState [zeroFilter] twoPages [])).2 !! 0%nat
  = Some zeroFilter.
Proof.
  apply (caller_filter_is_not_written (P := string) 0 zeroFilter
           (mkState [zeroFilter] twoPages [])).
  reflexivity.
Defined.

(** C8 fails on the code.  Against the two pages, [ListTasks] with a [nil]
    filter panics once the first page has come back with its cursor, where
    [ListTasks] with [&Filter{}] returns the three elements; [GetWebhooks]
    does the same.  With one page only, the [nil] filter is served. *)
Theorem nil_filter_panics_on_second_page :
  (ListTasks (P := string) 2 NewClient None (mkState [] twoPages [])).1
  = Panic nilDereference /\
  (ListTasks (P := string) 2 NewClient (Some 0%nat)
     (mkState [zeroFilter] twoPages [])).1
  = Val (Some ["a"; "b"; "c"], None) /\
  (GetWebhooks (P := string) 2 NewClient None (mkState [] twoPages [])).1
  = Panic nilDereference /\
  (ListTasks (P := string) 2 NewClient None (mkState [] [secondPage] [])).1
  = Val (Some ["c"], None).
Proof. repeat split; vm_compute; reflexivity. Qed.

(** C1 fails on the code.  Against the two pages, every list operation
    called with a [nil] filter panics after the one exchange that brought
    the first page and its cursor: no second request goes out and nothing
    is returned.  Called with [&Filter{}], each of them sends the two
    requests, the second with the cursor's offset, and returns the three
    elements. *)
Theorem nil_filter_listing_is_cut_short :
  Forall (fun op =>
    (runList (P := string) op 5 NewClient None (mkState [] twoPages [])).1
    = Panic nilDereference /\
    length (trace (runList (P := string) op 5 NewClient None
                     (mkState [] twoPages [])).2) = 1%nat /\
    (runList (P := string) op 5 NewClient (Some 0%nat)
       (mkState [zeroFilter] twoPages [])).1
    = Val (Some ["a"; "b"; "c"], None) /\
    map (fun x => URL.RawQuery (HttpRequest.URL x.1) !! "offset")
      (trace (runList (P := string) op 5 NewClient (Some 0%nat)
                (mkState [zeroFilter] twoPages [])).2)
    = [None; Some ["off1"]])
    [Workspaces; Users; Projects; Tags; Tasks; TaskStories 1; ProjectTasks 2;
     ProjectSections 3; Webhooks].
Proof. repeat constructor; vm_compute; reflexivity. Qed.

(** ** More on the query values of a filter *)

Lemma addBool_lookup_fresh (k : string) (b : bool) (m : Values) :
  m !! k = None ->
  addBool k b m !! k = if b then Some ["true"] else None.
Proof. intros Hk. unfold addBool. destruct b; [by apply Add_lookup_fresh | done]. Qed.

Lemma addInt_lookup_fresh (k : string) (n : Z) (m : Values) :
  m !! k = None ->
  addInt k n m !! k = if n =? 0 then None else Some [pretty n].
Proof.
  intros Hk. unfold addInt. destruct (n =? 0); [done | by apply Add_lookup_fresh].
Qed.

Lemma addString_lookup_fresh (k s : string) (m : Values) :
  m !! k = None ->
  addString k s m !! k = if String.eqb s "" then None else Some [s].
Proof.
  intros Hk. unfold addString. destruct (String.eqb s ""); [done | by apply Add_lookup_fresh].
Qed.

Lemma addComma_lookup_fresh (k : string) (l : list string) (m : Values) :
  m !! k = None ->
  addComma k l m !! k
  = if Nat.eqb (length l) 0 then None else Some [String.concat "," l].
Proof.
  intros Hk. unfold addComma.
  destruct (Nat.eqb (length l) 0); [done | by apply Add_lookup_fresh].
Qed.

Ltac query_key :=
  unfold query_Values; autorewrite with query;
  first [ apply addBool_lookup_fresh | apply addInt_lookup_fresh
        | apply addString_lookup_fresh | apply addComma_lookup_fresh ];
  autorewrite with query; apply lookup_empty.

(** What the query has under each of the ten parameter names. *)
Lemma query_keys (f : Filter) :
  query_Values f !! "archived" = (if Archived f then Some ["true"] else None) /\
  query_Values f !! "assignee"
    = (if Assignee f =? 0 then None else Some [pretty (Assignee f)]) /\
  query_Values f !! "project"
    = (if Project f =? 0 then None else Some [pretty (Project f)]) /\
  query_Values f !! "workspace"
    = (if Workspace f =? 0 then None else Some [pretty (Workspace f)]) /\
  query_Values f !! "completed_since"
    = (if String.eqb (CompletedSince f) "" then None else Some [CompletedSince f]) /\
  query_Values f !! "modified_since"
    = (if String.eqb (ModifiedSince f) "" then None else Some [ModifiedSince f]) /\
  query_Values f !! "opt_fields"
    = (if Nat.eqb (length (OptFields f)) 0 then None
       else Some [String.concat "," (OptFields f)]) /\
  query_Values f !! "opt_expand"
    = (if Nat.eqb (length (OptExpand f)) 0 then None
       else Some [String.concat "," (OptExpand f)]) /\
  query_Values f !! "offset"
    = (if String.eqb (Offset f) "" then None else Some [Offset f]) /\
  query_Values f !! "limit"
    = (if Limit f =? 0 then None else Some [pretty (Limit f)]).
Proof. repeat split; query_key. Qed.

Lemma query_other (f : Filter) (k : string) :
  k ∉ filterKeys -> query_Values f !! k = None.
Proof.
  intros Hk. unfold filterKeys in Hk.
  rewrite !not_elem_of_cons in Hk. destruct_and!.
  unfold query_Values.
  rewrite addInt_lookup_ne, addString_lookup_ne, !addComma_lookup_ne,
    !addString_lookup_ne, !addInt_lookup_ne, addBool_lookup_ne by done.
  apply lookup_empty.
Qed.

Lemma filterKeys_cases (k : string) (Q : string -> Prop) :
  k ∈ filterKeys ->
  Q "archived" -> Q "assignee" -> Q "project" -> Q "workspace" ->
  Q "completed_since" -> Q "modified_since" -> Q "opt_fields" ->
  Q "opt_expand" -> Q "offset" -> Q "limit" -> Q k.
Proof.
  unfold filterKeys. rewrite !elem_of_cons, elem_of_nil.
  intros Hk. intros. destruct_or!; subst; done.
Qed.

(** Outside [offset] the query does not depend on the filter's [Offset],
    and outside [opt_fields] not on its [OptFields]. *)
Lemma query_setOffset (o : string) (f : Filter) (k : string) :
  k <> "offset" -> query_Values (setOffset o f) !! k = query_Values f !! k.
Proof.
  intros Hk. destruct (decide (k ∈ filterKeys)) as [Hin|Hout].
  - pose proof (query_keys f) as Hf. pose proof (query_keys (setOffset o f)) as Hg.
    simpl in Hg. destruct_and!.
    revert Hk. apply (filterKeys_cases k (fun k => k <> "offset" ->
      query_Values (setOffset o f) !! k = query_Values f !! k)); [exact Hin|..];
      intros Hk; first [congruence | by destruct Hk].
  - by rewrite !query_other.
Qed.

Lemma query_setOptFields (l : list string) (f : Filter) (k : string) :
  k <> "opt_fields" -> query_Values (setOptFields l f) !! k = query_Values f !! k.
Proof.
  intros Hk. destruct (decide (k ∈ filterKeys)) as [Hin|Hout].
  - pose proof (query_keys f) as Hf. pose proof (query_keys (setOptFields l f)) as Hg.
    simpl in Hg. destruct_and!.
    revert Hk. apply (filterKeys_cases k (fun k => k <> "opt_fields" ->
      query_Values (setOptFields l f) !! k = query_Values f !! k)); [exact Hin|..];
      intros Hk; first [congruence | by destruct Hk].
  - by rewrite !query_other.
Qed.

Lemma query_withDefaults (path : string) (f : Filter) (k : string) :
  k <> "opt_fields" ->
  query_Values (withDefaults path f) !! k = query_Values f !! k.
Proof.
  intros Hk. unfold withDefaults.
  destruct (Nat.eqb (length (OptFields f)) 0); [by apply query_setOptFields | done].
Qed.

(** X1.  Every parameter of the query of a filter has one of the ten names
    of the [url] tags and exactly one value. *)
Theorem query_parameters_are_single (f : Filter) (k : string) (vs : list string) :
  query_Values f !! k = Some vs ->
  k ∈ filterKeys /\ exists v, vs = [v].
Proof.
  intros Hvs. destruct (decide (k ∈ filterKeys)) as [Hin|Hout];
    [|by rewrite query_other in Hvs].
  split; [done|].
  destruct (query_keys f) as (H1 & H2 & H3 & H4 & H5 & H6 & H7 & H8 & H9 & H10).
  revert vs Hvs.
  apply (filterKeys_cases k (fun k => forall vs,
    query_Values f !! k = Some vs -> exists v, vs = [v])); [exact Hin|..];
    intros vs;
    [ rewrite H1 | rewrite H2 | rewrite H3 | rewrite H4 | rewrite H5
    | rewrite H6 | rewrite H7 | rewrite H8 | rewrite H9 | rewrite H10 ];
    clear; case_match; intros ?; simplify_eq; eauto.
Qed.


(** ** More on [request] *)

Section RequestShape.
Context {P B W V : Type} `{Library P B} `{Doer B W} `{Decoder B V}.

(** X3.  [request] asks the transport at most once: either the trace and
    the state of the transport are as before the call, or one exchange has
    been added, which is what [Do] made of the request in the state the
    transport was in. *)
Theorem request_asks_at_most_once (c : Client) (method path : string)
    (data : option P) (form : option Values) (opt : ptr) (v : V)
    (st : state B W) :
  (trace (request c method path data form opt v st).2 = trace st /\
   world (request c method path data form opt v st).2 = world st) \/
  (exists req r,
     trace (request c method path data form opt v st).2 = trace st ++ [(req, r)] /\
     Do req (world st) = (r, world (request c method path data form opt v st).2)).
Proof.
  destruct (pointee (heap st) opt) as [f|] eqn:Hf.
  - rewrite (request_run _ _ _ _ _ _ _ _ _ Hf). simpl.
    destruct (outgoing c method path data form f) as [req|err]; [|by left].
    right. exists req. destruct (Do req (world st)) as [r w].
    by exists r.
  - rewrite (request_dangling _ _ _ _ _ _ _ _ Hf). by left.
Qed.



(** X5.  A path that [url.Parse] rejects makes [request] return the
    parser's error: the transport is not asked and the destination is as it
    was. *)
Theorem request_rejects_bad_path (c : Client) (method path : string)
    (data : option P) (form : option Values) (opt : ptr) (v : V)
    (st : state B W) (f : Filter) (err : error) :
  pointee (heap st) opt = Some f ->
  url_Parse path = Some err ->
  (request c method path data form opt v st).1 = Val (v, None, Some err) /\
  world (request c method path data form opt v st).2 = world st /\
  trace (request c method path data form opt v st).2 = trace st.
Proof.
  intros Hf Hparse. rewrite (request_run _ _ _ _ _ _ _ _ _ Hf).
  unfold outgoing. by rewrite Hparse.
Qed.

(** X6.  A payload that [json.Marshal] rejects makes [request] return the
    marshaller's error, when the URL could be built: the transport is not
    asked, and a form given along with the payload is not sent instead. *)
Theorem request_rejects_bad_payload (c : Client) (method path : string)
    (d : P) (form : option Values) (opt : ptr) (v : V)
    (st : state B W) (f : Filter) (err : error) :
  pointee (heap st) opt = Some f ->
  url_Parse path = None ->
  (forall q, url_reParse (URL.mk (url_Path path) q) = None) ->
  json_Marshal d = inr err ->
  (request c method path (Some d) form opt v st).1 = Val (v, None, Some err) /\
  world (request c method path (Some d) form opt v st).2 = world st /\
  trace (request c method path (Some d) form opt v st).2 = trace st.
Proof.
  intros Hf Hparse Hre Hmarshal. rewrite (request_run _ _ _ _ _ _ _ _ _ Hf).
  unfold outgoing. by rewrite Hparse, Hre, Hmarshal.
Qed.

(** X7.  An error of the transport is returned as it is, without a cursor,
    and the destination is as it was. *)
Theorem request_returns_transport_error (c : Client) (method path : string)
    (data : option P) (form : option Values) (opt : ptr) (v : V)
    (st : state B W) (req : HttpRequest.t B) (err : error) :
  trace (request c method path data form opt v st).2 = trace st ++ [(req, inr err)] ->
  (request c method path data form opt v st).1 = Val (v, None, Some err).
Proof.
  intros Htr.
  by destruct (request_exchange _ _ _ _ _ _ _ _ _ _ Htr) as (f & _ & _ & ->).
Qed.
End RequestShape.

(** ** More on the list operations *)

Section ListingMore.
Context {P B W E : Type} `{Library P B} `{Doer B W} `{Decoder B (list E)}.

Lemma outgoing_listRequest (c : Client) (path : string) (f : Filter)
    (req : HttpRequest.t B) :
  outgoing (P := P) c "GET" path None None f = inl req ->
  req = listRequest c path f.
Proof.
  unfold outgoing, listRequest. intros Hout.
  by repeat (case_match; simplify_eq).
Qed.

Lemma request_sent_to (c : Client) (path : string) (opt : ptr) (g : Filter)
    (h : list Filter) (w w1 : W) (r : DoResult B)
    (tr : list (HttpRequest.t B * DoResult B)) :
  pointee h opt = Some g ->
  constructible (P := P) c path ->
  Do (listRequest c path g) w = (r, w1) ->
  request (P := P) c "GET" path None None opt [] (mkState h w tr)
  = (Val (received r []),
     mkState (h ++ allocated path opt g) w1 (tr ++ [(listRequest c path g, r)])).
Proof.
  intros Hp Hc HD.
  rewrite (request_run _ _ _ _ _ _ _ _ g) by done.
  simpl. rewrite constructible_outgoing by done. by rewrite HD.
Qed.

(** X8.  A list operation called without a filter, whose first answer is a
    page without a cursor, returns that page: one exchange, built from
    [Filter{}]. *)
Theorem listing_without_filter_one_page (op : listOperation) (c : Client)
    (h : list Filter) (w w' : W) (tr : list (HttpRequest.t B * DoResult B))
    (r : DoResult B) (data : list E) (fuel : nat) :
  constructible (P := P) c (listPath op) ->
  Do (listRequest c (listPath op) zeroFilter) w = (r, w') ->
  isPage r data None ->
  (runList (P := P) op (S fuel) c None (mkState h w tr)).1
    = Val (Some data, None) /\
  trace (runList (P := P) op (S fuel) c None (mkState h w tr)).2
    = tr ++ [(listRequest c (listPath op) zeroFilter, r)].
Proof.
  intros Hc HD Hr.
  rewrite runList_pagenate, pagenate_S.
  rewrite (request_sent_to _ _ None zeroFilter _ _ w' r) by done.
  by rewrite (received_page _ _ _ Hr).
Qed.

(** X9.  A list operation called without a filter, whose first answer is a
    page with a cursor, panics on the [nil] pointer after that one
    exchange, whatever the page holds. *)
Theorem listing_without_filter_panics_at_cursor (op : listOperation)
    (c : Client) (h : list Filter) (w w' : W)
    (tr : list (HttpRequest.t B * DoResult B))
    (r : DoResult B) (data : list E) (next : NextPage.t) (fuel : nat) :
  constructible (P := P) c (listPath op) ->
  Do (listRequest c (listPath op) zeroFilter) w = (r, w') ->
  isPage r data (Some next) ->
  (runList (P := P) op (S fuel) c None (mkState h w tr)).1
    = Panic nilDereference /\
  world (runList (P := P) op (S fuel) c None (mkState h w tr)).2 = w' /\
  trace (runList (P := P) op (S fuel) c None (mkState h w tr)).2
    = tr ++ [(listRequest c (listPath op) zeroFilter, r)].
Proof.
  intros Hc HD Hr.
  rewrite runList_pagenate, pagenate_S.
  rewrite (request_sent_to _ _ None zeroFilter _ _ w' r) by done.
  by rewrite (received_page _ _ _ Hr).
Qed.

Lemma listRequest_offset (c : Client) (path : string) (g : Filter) :
  URL.RawQuery (HttpRequest.URL (listRequest (P := P) (B := B) c path g)) !! "offset"
  = offsetParameter (Offset g).
Proof.
  unfold listRequest, ResolveReference. simpl.
  rewrite query_withDefaults by done. apply query_offset.
Qed.

Lemma offsets_of_advance (c : Client) (path : string) (f : Filter)
    (pages : list (list E * NextPage.t)) :
  map (fun req : HttpRequest.t B => URL.RawQuery (HttpRequest.URL req) !! "offset")
    (map (listRequest (P := P) c path) (advance f pages.*2))
  = offsetParameter (Offset f)
      :: map (fun pg => offsetParameter (NextPage.Offset pg.2)) pages.
Proof.
  unfold advance. cbn [map]. rewrite listRequest_offset. f_equal.
  induction pages as [|pg pages IH]; [done|].
  rewrite fmap_cons. cbn [map]. rewrite listRequest_offset. by f_equal.
Qed.

Lemma map_zip_fst {A A' C} (g : A -> C) (l : list A) (k : list A') :
  length l = length k -> map (fun x => g x.1) (zip l k) = map g l.
Proof.
  revert k. induction l as [|a l IH]; intros [|b k] Hlen; try done.
  simpl. f_equal. apply IH. by injection Hlen.
Qed.

(** X22.  Take a list operation called with a filter, and a transport that
    answers the requests of the listing with [N-1] pages carrying a cursor
    and then a page without one.  The operation returns the elements of the
    pages in order and no error.  The trace has grown by exactly [N]
    exchanges: the first request is built from the caller's filter, each
    later one from the caller's filter with [Offset] set to the offset of
    the cursor on the page before.  On the wire, the [offset] parameter of
    the first request is the one of the caller's filter, and the one of
    each later request is the offset of the cursor on the page before, left
    out when that offset is empty.  Any bound on the loop above [N-1] is
    enough. *)
Theorem listing_returns_all_pages (op : listOperation) (c : Client)
    (p : nat) (f : Filter) (h : list Filter) (w w' : W)
    (tr : list (HttpRequest.t B * DoResult B))
    (pages : list (list E * NextPage.t)) (lastPage : list E)
    (rs : list (DoResult B)) (r : DoResult B) (fuel : nat) :
  h !! p = Some f ->
  constructible (P := P) c (listPath op) ->
  Forall2 (fun r pg => isPage r pg.1 (Some pg.2)) rs pages ->
  isPage r lastPage None ->
  serves w (zip (map (listRequest (B := B) c (listPath op)) (advance f pages.*2))
              (rs ++ [r])) w' ->
  (length pages < fuel)%nat ->
  (runList (P := P) op fuel c (Some p) (mkState h w tr)).1
    = Val (Some (concat pages.*1 ++ lastPage), None) /\
  world (runList (P := P) op fuel c (Some p) (mkState h w tr)).2 = w' /\
  trace (runList (P := P) op fuel c (Some p) (mkState h w tr)).2
    = tr ++ zip (map (listRequest (B := B) c (listPath op)) (advance f pages.*2))
              (rs ++ [r]) /\
  length (trace (runList (P := P) op fuel c (Some p) (mkState h w tr)).2)
    = (length tr + S (length pages))%nat /\
  map (fun x => URL.RawQuery (HttpRequest.URL x.1) !! "offset")
    (drop (length tr)
       (trace (runList (P := P) op fuel c (Some p) (mkState h w tr)).2))
  = offsetParameter (Offset f)
      :: map (fun pg => offsetParameter (NextPage.Offset pg.2)) pages.
Proof.
  intros Hp Hc Hpages Hlast Hs Hfuel.
  pose proof (Forall2_length _ _ _ Hpages) as Hlen.
  assert (length rs = length pages.*2) as Hlen' by (by rewrite length_fmap).
  assert (trace (runList (P := P) op fuel c (Some p) (mkState h w tr)).2
          = tr ++ zip (map (listRequest (B := B) c (listPath op)) (advance f pages.*2))
                    (rs ++ [r]) /\
          (runList (P := P) op fuel c (Some p) (mkState h w tr)).1
          = Val (Some (concat pages.*1 ++ lastPage), None) /\
          world (runList (P := P) op fuel c (Some p) (mkState h w tr)).2 = w')
    as (Htr & Hval & Hw).
  { rewrite zip_advance in Hs |- * by done.
    apply serves_snoc in Hs as (w1 & Hs & HD).
    rewrite runList_pagenate.
    replace fuel with (length rs + S (fuel - S (length rs)))%nat by lia.
    destruct (pagenate_pages c (listPath op) rs pages Hc Hpages
                (S (fuel - S (length rs))) p f h w w1 tr [] Hp Hs)
      as (h' & p' & _ & Hp' & ->).
    rewrite (pagenate_last _ _ _ _ (lastFilter f pages.*2) _ _ w' r _ _ lastPage)
      by done.
    unfold returned. cbn [fst snd world trace].
    by rewrite <- app_assoc. }
  repeat split; try done.
  - rewrite Htr, length_app, length_zip_advance by done.
    by rewrite length_fmap.
  - rewrite Htr, drop_app_length.
    rewrite (map_zip_fst (fun req : HttpRequest.t B =>
                            URL.RawQuery (HttpRequest.URL req) !! "offset"));
      [apply offsets_of_advance|].
    rewrite length_map, length_app. unfold advance.
    rewrite length_cons, length_map. change (length [r]) with 1%nat. lia.
Qed.

(** X23.  Take a list operation, and a transport that answers the requests
    of the listing with pages carrying a cursor and then with a failure (an
    error of the transport, a 401, error records in the envelope, or a
    decoder error); the operation is called with a filter, or without one
    when the failure is the first answer.  With a bound on the loop above
    the number of pages, the operation returns that failure's error and the
    [nil] slice.  The failed exchange is the last one of the trace, and the
    transport is left as that exchange left it. *)
Theorem listing_fails_after_pages (op : listOperation) (c : Client)
    (opt : ptr) (f : Filter) (h : list Filter) (w w' : W)
    (tr : list (HttpRequest.t B * DoResult B))
    (pages : list (list E * NextPage.t))
    (rs : list (DoResult B)) (r : DoResult B) (err : error) (fuel : nat) :
  pointee h opt = Some f ->
  (opt = None -> pages = []) ->
  constructible (P := P) c (listPath op) ->
  Forall2 (fun r pg => isPage r pg.1 (Some pg.2)) rs pages ->
  failsWith r err ->
  serves w (zip (map (listRequest (B := B) c (listPath op)) (advance f pages.*2))
              (rs ++ [r])) w' ->
  (length pages < fuel)%nat ->
  (runList (P := P) op fuel c opt (mkState h w tr)).1
    = Val (None, Some err) /\
  world (runList (P := P) op fuel c opt (mkState h w tr)).2 = w' /\
  trace (runList (P := P) op fuel c opt (mkState h w tr)).2
    = tr ++ zip (map (listRequest (B := B) c (listPath op)) (advance f pages.*2))
              (rs ++ [r]).
Proof.
  intros Hf Hnil Hc Hpages Hfail Hs Hfuel.
  destruct opt as [p|].
  - simpl in Hf.
    pose proof (Forall2_length _ _ _ Hpages) as Hlen.
    assert (length rs = length pages.*2) as Hlen' by (by rewrite length_fmap).
    rewrite zip_advance in Hs |- * by done.
    apply serves_snoc in Hs as (w1 & Hs & HD).
    rewrite runList_pagenate.
    replace fuel with (length rs + S (fuel - S (length rs)))%nat by lia.
    destruct (pagenate_pages c (listPath op) rs pages Hc Hpages
                (S (fuel - S (length rs))) p f h w w1 tr [] Hf Hs)
      as (h' & p' & _ & Hp' & ->).
    rewrite (pagenate_failure _ _ _ _ (lastFilter f pages.*2) _ _ w' r _ _ err)
      by done.
    unfold returned. cbn [fst snd world trace].
    by rewrite <- app_assoc.
  - rewrite (Hnil eq_refl) in *. inversion Hpages; subst. simpl in Hs |- *.
    inversion Hs as [|? ? ? w1 ? ? HD Hs']; subst. inversion Hs'; subst.
    destruct fuel as [|fuel]; [simpl in Hfuel; lia|].
    rewrite runList_pagenate, pagenate_S.
    rewrite (request_sent_to _ _ None f _ _ w' r) by done.
    by destruct (received_failure _ _ Hfail) as (page & next & ->).
Qed.

Lemma agrees_setOffset (g f : Filter) :
  setOffset "" g = setOffset "" f -> g = setOffset (Offset g) f.
Proof.
  destruct g, f. unfold setOffset. simpl. intros Heq.
  injection Heq. intros. by subst.
Qed.

(** Whatever the transport answers, the requests of [pagenate] are built
    from the filter it was given, up to its [Offset]. *)
Lemma pagenate_requests (fuel : nat) (c : Client) (path : string) (f : Filter) :
  forall (opt : ptr) (v : list E) (st : state B W) (g : Filter),
    pointee (heap st) opt = Some g ->
    setOffset "" g = setOffset "" f ->
    exists added,
      trace (pagenate (P := P) fuel c path opt v st).2 = trace st ++ added /\
      Forall (fun x => exists o, x.1 = listRequest (B := B) c path (setOffset o f)) added.
Proof.
  induction fuel as [|fuel IH]; intros opt v st g Hg Hgf.
  { exists []. by rewrite app_nil_r. }
  rewrite pagenate_S, (request_run _ _ _ _ _ _ _ _ g) by done. simpl.
  destruct (outgoing c "GET" path None None g) as [req|err] eqn:Hout;
    [|exists []; by rewrite app_nil_r].
  apply outgoing_listRequest in Hout as ->.
  assert (exists o, listRequest (B := B) c path g = listRequest c path (setOffset o f))
    as Hreq by (exists (Offset g); by rewrite <- agrees_setOffset).
  destruct (Do (listRequest c path g) (world st)) as [r w1].
  destruct (received r []) as [[page next] err].
  destruct err as [err|]; [by exists [(listRequest c path g, r)]; split; [|constructor]|].
  destruct next as [next|];
    [|by exists [(listRequest c path g, r)]; split; [|constructor]].
  unfold bind at 1. unfold load at 1.
  destruct opt as [l|]; simpl;
    [|by exists [(listRequest c path g, r)]; split; [|constructor]].
  simpl in Hg. rewrite (lookup_app_l_Some _ _ _ _ Hg).
  unfold bind, new, store. simpl. rewrite lookup_snoc, insert_snoc.
  edestruct (IH (Some (length (heap st ++ allocated path (Some l) g)))
               (v ++ page)
               (mkState ((heap st ++ allocated path (Some l) g)
                           ++ [setOffset (NextPage.Offset next) g])
                  w1 (trace st ++ [(listRequest c path g, r)]))
               (setOffset (NextPage.Offset next) g))
    as (added & -> & Hadded); [apply lookup_snoc | exact Hgf |].
  exists ((listRequest c path g, r) :: added). simpl.
  split; [by rewrite <- app_assoc | by constructor].
Qed.

(** X10.  Whatever the transport answers, every request a list operation
    makes is the [GET] for its path built from the caller's filter with
    nothing but [Offset] changed: same method, URL path and headers, no
    body, and the same query but for [offset]. *)
Theorem listing_changes_offset_only (op : listOperation) (fuel : nat)
    (c : Client) (opt : ptr) (st : state B W) (f : Filter) :
  pointee (heap st) opt = Some f ->
  exists added,
    trace (runList (P := P) (E := E) op fuel c opt st).2 = trace st ++ added /\
    Forall (fun x => exists o,
              x.1 = listRequest (B := B) c (listPath op) (setOffset o f)) added.
Proof.
  intros Hf. rewrite runList_pagenate, returned_state.
  by apply (pagenate_requests fuel c (listPath op) f opt [] st f).
Qed.

(** X11.  The driver has no page limit: against a transport that, in
    every state it can get into, answers with a page carrying a cursor, a
    list operation called with a filter never returns; for every bound on
    the loop it is cut off after that many exchanges. *)
Theorem listing_has_no_page_limit (op : listOperation) (c : Client)
    (p : nat) (f : Filter) (st : state B W) (fuel : nat) (inv : W -> Prop) :
  heap st !! p = Some f ->
  constructible (P := P) c (listPath op) ->
  inv (world st) ->
  (forall req w, inv w ->
     inv (Do req w).2 /\
     exists data next, isPage (E := E) (Do req w).1 data (Some next)) ->
  (runList (P := P) (E := E) op fuel c (Some p) st).1 = Exhausted /\
  length (trace (runList (P := P) (E := E) op fuel c (Some p) st).2)
    = (length (trace st) + fuel)%nat.
Proof.
  intros Hp Hc Hinv Hendless. rewrite runList_pagenate.
  assert (forall (g : Filter) (h : list Filter) (w : W)
            (tr : list (HttpRequest.t B * DoResult B)) (q : nat) (v : list E),
            h !! q = Some g -> inv w ->
            (pagenate (P := P) fuel c (listPath op) (Some q) v (mkState h w tr)).1
              = Exhausted /\
            length (trace (pagenate (P := P) fuel c (listPath op) (Some q) v
                             (mkState h w tr)).2)
              = (length tr + fuel)%nat) as Hloop.
  { induction fuel as [|fuel IH]; intros g h w tr q v Hq Hw.
    { simpl. split; [done | lia]. }
    destruct (Hendless (listRequest c (listPath op) g) w Hw)
      as (Hw1 & data & next & Hpage).
    destruct (Do (listRequest c (listPath op) g) w) as [r w1] eqn:HD.
    rewrite (pagenate_next _ _ _ _ g _ _ w1 r _ _ data next) by done.
    edestruct (IH (setOffset (NextPage.Offset next) g)) as [-> ->];
      [apply lookup_snoc | exact Hw1 |].
    split; [done|]. rewrite length_app. simpl. lia. }
  destruct st as [h w tr]. simpl in Hp, Hinv.
  destruct (Hloop f h w tr p [] Hp Hinv) as [Hval Hlen].
  destruct (pagenate fuel c (listPath op) (Some p) [] (mkState h w tr))
    as [[[rets [err|]]| |] st'] eqn:Hrun; simpl in *; try done.
Qed.

(** X12.  The loop [GetWebhooks] writes out is the loop of [pagenate]:
    on every input [GetWebhooks] does what a [pagenate]-based list
    operation for the path [webhooks] does, state and trace included. *)
Theorem GetWebhooks_as_pagenate (fuel : nat) (c : Client) (opt : ptr)
    (st : state B W) :
  GetWebhooks (P := P) (E := E) fuel c opt st
  = listAll (P := P) fuel c "webhooks" opt st.
Proof.
  unfold GetWebhooks. by rewrite GetWebhooks_loop_pagenate, listAll_pagenate.
Qed.

Lemma writtenOutLoop_S (fuel : nat) (c : Client) (path : string) (opt : ptr)
    (v : list E) (st : state B W) :
  writtenOutLoop (P := P) (S fuel) c path opt v st =
    match request (P := P) c "GET" path None None opt [] st with
    | (Val (page, next, err), st') =>
        match err with
        | Some err => (Val (None, Some err), st')
        | None =>
            match next with
            | None => (Val (Some (v ++ page), None), st')
            | Some next =>
                (newOpt <- load opt ;;
                 opt <- new newOpt ;;
                 _ <- store opt (setOffset (NextPage.Offset next)) ;;
                 writtenOutLoop (P := P) fuel c path opt (v ++ page)) st'
            end
        end
    | (Panic msg, st') => (Panic msg, st')
    | (Exhausted, st') => (Exhausted, st')
    end.
Proof.
  simpl. unfold bind at 1.
  destruct (request c "GET" path None None opt [] st) as [[[[page next] err]| |] st'];
    try reflexivity.
  destruct err; [reflexivity|]. destruct next; reflexivity.
Qed.

Lemma writtenOutLoop_pagenate (fuel : nat) (c : Client) (path : string) :
  forall (opt : ptr) (v : list E) (st : state B W),
    writtenOutLoop (P := P) fuel c path opt v st
    = returned (pagenate (P := P) fuel c path opt v st).
Proof.
  induction fuel as [|fuel IH]; intros opt v st; [reflexivity|].
  rewrite writtenOutLoop_S, pagenate_S.
  destruct (request c "GET" path None None opt [] st) as [[[[page next] err]| |] st'];
    try reflexivity.
  destruct err; [reflexivity|]. destruct next as [next|]; [|reflexivity].
  unfold bind.
  destruct (load opt st') as [[newOpt| |] st1]; try reflexivity.
  destruct (new newOpt st1) as [[opt'| |] st2]; try reflexivity.
  destruct (store opt' (setOffset (NextPage.Offset next)) st2) as [[[]| |] st3];
    try reflexivity.
  apply IH.
Qed.

(** X13.  The two versions of the list operations in the sources agree:
    the loop the first version writes out in each operation does, for the
    same path, what the second version's [pagenate]-based operation does,
    on every input, state and trace included. *)
Theorem written_out_loop_as_pagenate (fuel : nat) (c : Client) (path : string)
    (opt : ptr) (st : state B W) :
  writtenOut (P := P) (E := E) fuel c path opt st
  = listAll (P := P) fuel c path opt st.
Proof.
  unfold writtenOut. by rewrite writtenOutLoop_pagenate, listAll_pagenate.
Qed.
End ListingMore.

(** ** Error texts *)





(** ** [toURLValues] *)

Lemma toURLValues_snoc (entries : list (string * string)) (k v : string) :
  toURLValues (entries ++ [(k, v)]) = <[k := [v]]> (toURLValues entries).
Proof. unfold toURLValues. by rewrite foldl_app. Qed.

(** X15.  Whatever the order in which the entries of the map are visited,
    [toURLValues] gives every key of the map the one-element slice of its
    value, and has no other key. *)
Theorem toURLValues_of_every_order (entries : list (string * string))
    (k : string) :
  NoDup entries.*1 ->
  toURLValues entries !! k
  = (fun v => [v]) <$> (list_to_map entries : gmap string string) !! k.
Proof.
  induction entries as [|[k' v'] entries IH] using rev_ind; intros Hnodup.
  { unfold toURLValues. simpl. by rewrite !lookup_empty. }
  rewrite fmap_app in Hnodup. apply NoDup_app in Hnodup as (Hnodup & Hfresh & _).
  rewrite toURLValues_snoc.
  destruct (decide (k' = k)) as [->|Hne].
  - rewrite lookup_insert_eq.
    assert ((list_to_map (entries ++ [(k, v')]) : gmap string string) !! k = Some v')
      as ->; [|done].
    apply elem_of_list_to_map_1.
    + rewrite fmap_app. apply NoDup_app. repeat split; try done.
      simpl. apply NoDup_singleton.
    + apply elem_of_app. right. by apply list_elem_of_singleton.
  - rewrite lookup_insert_ne by done. rewrite IH by done. f_equal.
    destruct ((list_to_map entries : gmap string string) !! k) as [v|] eqn:Hk.
    + apply elem_of_list_to_map_2 in Hk. symmetry.
      apply elem_of_list_to_map_1.
      * rewrite fmap_app. apply NoDup_app. repeat split; try done.
        simpl. apply NoDup_singleton.
      * apply elem_of_app. by left.
    + symmetry. apply not_elem_of_list_to_map_1.
      apply not_elem_of_list_to_map_2 in Hk.
      rewrite fmap_app, elem_of_app. intros [Hk'|Hk']; [done|].
      simpl in Hk'. apply list_elem_of_singleton in Hk'. done.
Qed.

(** ** Number fields and code points *)

Ltac divlia := Z.div_mod_to_equations; lia.

Lemma lor_above (a y k : Z) :
  0 <= k -> 0 <= y < 2 ^ k -> Z.lor (a * 2 ^ k) y = a * 2 ^ k + y.
Proof.
  intros Hk Hy.
  assert (Z.land (a * 2 ^ k) y = 0) as Hland.
  { apply Z.bits_inj'. intros n Hn. rewrite Z.land_spec, Z.bits_0.
    destruct (Z.lt_ge_cases n k) as [Hlt|Hge].
    - by rewrite Z.mul_pow2_bits_low.
    - destruct (Z.eq_dec y 0) as [->|Hy0]; [by rewrite Z.bits_0, andb_false_r|].
      rewrite (Z.bits_above_log2 y n), andb_false_r; [done | lia |].
      assert (Z.log2 y < k) by (apply Z.log2_lt_pow2; lia). lia. }
  by rewrite <- Z.lxor_lor, <- Z.add_nocarry_lxor.
Qed.

Lemma land_63 (r : Z) : Z.land r 0x3F = r mod 64.
Proof. change 0x3F with (Z.ones 6). by rewrite Z.land_ones. Qed.

Lemma shiftr_div (r k : Z) : 0 <= k -> Z.shiftr r k = r / 2 ^ k.
Proof. apply Z.shiftr_div_pow2. Qed.

Lemma continuation_byte (y : Z) : Z.lor 0x80 (y mod 64) = 128 + y mod 64.
Proof.
  change 0x80 with (2 * 2 ^ 6). rewrite lor_above; [done | lia |].
  change (2 ^ 6) with 64. apply Z.mod_pos_bound. lia.
Qed.

(** The bytes [encoderune] gives a valid code point, in arithmetic. *)
Lemma encoderune_valid (r : Z) :
  validRune r ->
  (r <= 127 /\ encoderune r = [r]) \/
  (128 <= r <= 2047 /\ encoderune r = [192 + r / 64; 128 + r mod 64]) \/
  (2048 <= r <= 65535 /\
   encoderune r = [224 + r / 4096; 128 + (r / 64) mod 64; 128 + r mod 64]) \/
  (65536 <= r <= 1114111 /\
   encoderune r = [240 + r / 262144; 128 + (r / 4096) mod 64;
                   128 + (r / 64) mod 64; 128 + r mod 64]).
Proof.
  unfold validRune, maxRune, surrogateMin, surrogateMax. intros [Hr Hs].
  unfold encoderune, encode3, maxRune, surrogateMin, surrogateMax.
  change (2 ^ 32) with 4294967296. rewrite Z.mod_small by lia.
  rewrite !land_63, !shiftr_div by lia.
  change (2 ^ 6) with 64. change (2 ^ 12) with 4096. change (2 ^ 18) with 262144.
  rewrite !continuation_byte.
  destruct (Z.leb_spec r 0x7F); [left; split; [lia | done]|].
  destruct (Z.leb_spec r 0x7FF).
  { right. left. split; [lia|]. f_equal.
    change 0xC0 with (6 * 2 ^ 5). rewrite lor_above; [done | lia |].
    change (2 ^ 5) with 32. divlia. }
  destruct (Z.ltb_spec 1114111 r); [lia|].
  destruct (Z.leb_spec 55296 r); destruct (Z.leb_spec r 57343); simpl; try lia.
  - destruct (Z.leb_spec r 0xFFFF).
    + right. right. left. split; [lia|]. f_equal.
      change 0xE0 with (14 * 2 ^ 4). rewrite lor_above; [done | lia |].
      change (2 ^ 4) with 16. divlia.
    + right. right. right. split; [lia|]. f_equal.
      change 0xF0 with (30 * 2 ^ 3). rewrite lor_above; [done | lia |].
      change (2 ^ 3) with 8. divlia.
  - destruct (Z.leb_spec r 0xFFFF); [|lia].
    right. right. left. split; [lia|]. f_equal.
    change 0xE0 with (14 * 2 ^ 4). rewrite lor_above; [done | lia |].
    change (2 ^ 4) with 16. divlia.
Qed.

Lemma byte_inj (b b' : Z) :
  0 <= b < 256 -> 0 <= b' < 256 -> byte b = byte b' -> b = b'.
Proof.
  intros Hb Hb' Heq. unfold byte in Heq.
  change 0xFF with (Z.ones 8) in Heq. rewrite !Z.land_ones in Heq by lia.
  change (2 ^ 8) with 256 in Heq. rewrite !Z.mod_small in Heq by lia.
  apply (f_equal N_of_ascii) in Heq.
  rewrite !N_ascii_embedding in Heq by lia. lia.
Qed.

Lemma bytes_inj (l l' : list Z) :
  Forall (fun b => 0 <= b < 256) l -> Forall (fun b => 0 <= b < 256) l' ->
  bytes l = bytes l' -> l = l'.
Proof.
  intros Hl. revert l'. induction Hl as [|b l Hb _ IH]; intros l' Hl' Heq.
  - by destruct l'.
  - destruct Hl' as [|b' l' Hb' Hl']; [done|]. simpl in Heq.
    injection Heq as Hbyte Hrest. f_equal; [by apply byte_inj | by apply IH].
Qed.

Lemma intstring_valid (r : Z) :
  validRune r -> intstring r = bytes (encoderune r).
Proof.
  unfold validRune, maxRune. intros [Hr _]. unfold intstring.
  destruct (Z.leb_spec (- 2 ^ 31) r) as [_|Hlt];
    [|change (2 ^ 31) with 2147483648 in Hlt; lia].
  destruct (Z.ltb_spec r (2 ^ 31)) as [_|Hge];
    [reflexivity | change (2 ^ 31) with 2147483648 in Hge; lia].
Qed.

Lemma intstring_invalid (v : Z) : ~ validRune v -> intstring v = replacement.
Proof.
  unfold validRune, maxRune, surrogateMin, surrogateMax. intros Hv.
  unfold intstring.
  destruct (Z.leb_spec (- 2 ^ 31) v) as [Hlo|_]; [|reflexivity].
  destruct (Z.ltb_spec v (2 ^ 31)) as [Hhi|_]; [|reflexivity]. simpl.
  change (2 ^ 31) with 2147483648 in Hlo, Hhi.
  unfold replacement, encoderune, maxRune, surrogateMin, surrogateMax.
  change (2 ^ 32) with 4294967296.
  destruct (Z.lt_ge_cases v 0) as [Hneg|Hpos].
  - assert (v mod 4294967296 = v + 4294967296) as ->
      by (symmetry; apply (Z.mod_unique v 4294967296 (-1)); lia).
    destruct (Z.leb_spec (v + 4294967296) 0x7F); [lia|].
    destruct (Z.leb_spec (v + 4294967296) 0x7FF); [lia|].
    destruct (Z.ltb_spec 1114111 (v + 4294967296)); [reflexivity | lia].
  - rewrite Z.mod_small by lia.
    destruct (Z.leb_spec v 0x7F); [lia|].
    destruct (Z.leb_spec v 0x7FF); [lia|].
    destruct (Z.ltb_spec 1114111 v); [reflexivity|].
    destruct (Z.leb_spec 55296 v); destruct (Z.leb_spec v 57343);
      simpl; try reflexivity; lia.
Qed.

Lemma intstring_inj (r r' : Z) :
  validRune r -> validRune r' -> intstring r = intstring r' -> r = r'.
Proof.
  intros Hr Hr' Heq. rewrite !intstring_valid in Heq by done.
  apply bytes_inj in Heq.
  - destruct (encoderune_valid r Hr) as [[? E]|[[? E]|[[? E]|[? E]]]];
      destruct (encoderune_valid r' Hr') as [[? E']|[[? E']|[[? E']|[? E']]]];
      rewrite E, E' in Heq; try discriminate;
      injection Heq; intros; divlia.
  - destruct (encoderune_valid r Hr) as [[? E]|[[? E]|[[? E]|[? E]]]];
      rewrite E; repeat constructor; destruct Hr as [? _]; unfold maxRune in *; divlia.
  - destruct (encoderune_valid r' Hr') as [[? E]|[[? E]|[[? E]|[? E]]]];
      rewrite E; repeat constructor; destruct Hr' as [? _]; unfold maxRune in *; divlia.
Qed.

Lemma GetCustomFieldValue_number (t : Task.t) (cf : CustomField.t)
    (rest : list CustomField.t) :
  CustomField.Type_ cf = "number" ->
  GetCustomFieldValue (withCustomFields (cf :: rest) t) (CustomField.Name cf)
  = (intstring (CustomField.NumberValue cf), None).
Proof.
  intros Hty. unfold GetCustomFieldValue. simpl.
  by rewrite String.eqb_refl, Hty.
Qed.

(** X16.  A task's number field comes back as a character, not as decimal
    text: when the field named [name] that is first in the slice has type
    number and a value from 0 to 127, the value returned is the
    one-character string with that code. *)
Theorem number_field_is_a_character (t : Task.t) (cf : CustomField.t)
    (rest : list CustomField.t) :
  CustomField.Type_ cf = "number" ->
  0 <= CustomField.NumberValue cf <= 127 ->
  GetCustomFieldValue (withCustomFields (cf :: rest) t) (CustomField.Name cf)
  = (String (ascii_of_N (Z.to_N (CustomField.NumberValue cf))) "", None).
Proof.
  intros Hty Hn. rewrite GetCustomFieldValue_number by done. f_equal.
  assert (validRune (CustomField.NumberValue cf)) as Hvalid
    by (unfold validRune, maxRune, surrogateMin, surrogateMax; lia).
  rewrite intstring_valid by done.
  destruct (encoderune_valid _ Hvalid) as [[_ ->]|[[? _]|[[? _]|[? _]]]];
    try lia.
  simpl. f_equal. unfold byte. f_equal. f_equal.
  change 0xFF with (Z.ones 8). rewrite Z.land_ones by lia.
  apply Z.mod_small. change (2 ^ 8) with 256. lia.
Qed.

(** X17.  Number values that are not Unicode code points (negative, above
    U+10FFFF, or surrogates) all come back as the same string, the UTF-8
    bytes of U+FFFD. *)
Theorem number_field_outside_unicode (t : Task.t) (cf : CustomField.t)
    (rest : list CustomField.t) :
  CustomField.Type_ cf = "number" ->
  ~ validRune (CustomField.NumberValue cf) ->
  GetCustomFieldValue (withCustomFields (cf :: rest) t) (CustomField.Name cf)
  = (replacement, None).
Proof.
  intros Hty Hn. rewrite GetCustomFieldValue_number by done.
  by rewrite intstring_invalid.
Qed.

(** X18.  Number values that are Unicode code points can be told apart:
    two tasks whose first fields are number fields with valid code points
    give the same value only when the numbers are equal. *)
Theorem number_fields_are_told_apart (t t' : Task.t) (cf cf' : CustomField.t)
    (rest rest' : list CustomField.t) :
  CustomField.Type_ cf = "number" ->
  CustomField.Type_ cf' = "number" ->
  validRune (CustomField.NumberValue cf) ->
  validRune (CustomField.NumberValue cf') ->
  GetCustomFieldValue (withCustomFields (cf :: rest) t) (CustomField.Name cf)
  = GetCustomFieldValue (withCustomFields (cf' :: rest') t') (CustomField.Name cf') ->
  CustomField.NumberValue cf = CustomField.NumberValue cf'.
Proof.
  intros Hty Hty' Hn Hn'. rewrite !GetCustomFieldValue_number by done.
  intros [= Heq]. by apply intstring_inj.
Qed.

Lemma rangeCustomFields_app (cfs more : list CustomField.t) (name s : string) :
  rangeCustomFields cfs name = (s, None) ->
  rangeCustomFields (cfs ++ more) name = (s, None).
Proof.
  induction cfs as [|cf cfs IH]; [discriminate|]. simpl.
  repeat case_match; auto.
Qed.

(** X19.  A lookup that finds a value keeps finding it when custom fields
    are added at the end of the task's slice. *)
Theorem custom_field_value_is_stable (t : Task.t) (more : list CustomField.t)
    (name s : string) :
  GetCustomFieldValue t name = (s, None) ->
  GetCustomFieldValue (withCustomFields (Task.CustomFields t ++ more) t) name
  = (s, None).
Proof. unfold GetCustomFieldValue. simpl. apply rangeCustomFields_app. Qed.

(** ** [CreateWebhook] *)

Section Webhooks.
Context {P B W Wh : Type} `{Library P B} `{Doer B W} `{Decoder B (option Wh)}.

(** X20.  The request [CreateWebhook] sends is a [POST] with no query
    parameter at all, whose body is the encoded form of the resource id and
    the target, with the form content type.  The call then returns the
    webhook its pointer points to, with the error of [request], and panics
    when the decoder has left that pointer [nil]. *)
Theorem CreateWebhook_sends_a_form (c : Client) (id : Z) (target : string)
    (zero : Wh) (st : state B W) (req : HttpRequest.t B) (r : DoResult B) :
  trace (CreateWebhook (P := P) c id target zero st).2 = trace st ++ [(req, r)] ->
  HttpRequest.Method req = "POST" /\
  URL.RawQuery (HttpRequest.URL req) = ∅ /\
  HttpRequest.Body req
    = Some (form_Encode (<["resource" := [pretty id]]> (<["target" := [target]]> ∅))) /\
  HttpRequest.Header req !! "Content-Type"
    = Some "application/x-www-form-urlencoded" /\
  (CreateWebhook (P := P) c id target zero st).1
    = match received r (Some zero) with
      | (Some webhook, _, err) => Val (webhook, err)
      | (None, _, _) => Panic nilDereference
      end.
Proof.
  unfold CreateWebhook, bind, deref, ret.
  destruct (request c "POST" "webhooks" None
              (Some (<["resource" := [pretty id]]> (<["target" := [target]]> ∅)))
              None (Some zero) st) as [[[[webhook next] err]| |] st'] eqn:Hrun;
    [destruct webhook as [webhook|]| |]; simpl; intros Htr;
    (assert (trace (request c "POST" "webhooks" None
                      (Some (<["resource" := [pretty id]]> (<["target" := [target]]> ∅)))
                      None (Some zero) st).2 = trace st ++ [(req, r)]) as Htr'
       by (by rewrite Hrun));
    destruct (request_exchange _ _ _ _ _ _ _ _ _ _ Htr') as (f & Hf & Hout & Hres);
    rewrite Hrun in Hres; simpl in Hres; try discriminate Hres;
    injection Hres as <-; injection Hf as <-; unfold outgoing in Hout;
    repeat (case_match; simplify_eq); done.
Qed.
End Webhooks.

(** ** The further statements on the fixtures *)

Lemma query_parameters_are_single_witness :
  "opt_fields" ∈ filterKeys /\ exists v, ["name,notes"] = [v].
Proof.
  apply (query_parameters_are_single fieldSelection "opt_fields" ["name,notes"]).
  reflexivity.
Defined.


Lemma request_rejects_bad_path_witness :
  (request (H := pickyLibrary) NewClient "GET" ":" None None None
     ([] : list string) (mkState [] twoPages [])).1
  = Val ([], None, Some (URLError "missing protocol scheme")) /\
  world (request (H := pickyLibrary) NewClient "GET" ":" None None None
           ([] : list string) (mkState [] twoPages [])).2 = twoPages /\
  trace (request (H := pickyLibrary) NewClient "GET" ":" None None None
           ([] : list string) (mkState [] twoPages [])).2 = [].
Proof.
  exact (request_rejects_bad_path (H := pickyLibrary) NewClient "GET" ":"
           None None None ([] : list string) (mkState [] twoPages [])
           zeroFilter (URLError "missing protocol scheme") eq_refl eq_refl).
Defined.

Lemma request_rejects_bad_payload_witness :
  (request (H := pickyLibrary) NewClient "POST" "tasks" (Some "chan")
     (Some webhookForm) None ([] : list string) (mkState [] twoPages [])).1
  = Val ([], None, Some (MarshalError "unsupported type")) /\
  world (request (H := pickyLibrary) NewClient "POST" "tasks" (Some "chan")
           (Some webhookForm) None ([] : list string) (mkState [] twoPages [])).2
  = twoPages /\
  trace (request (H := pickyLibrary) NewClient "POST" "tasks" (Some "chan")
           (Some webhookForm) None ([] : list string) (mkState [] twoPages [])).2
  = [].
Proof.
  exact (request_rejects_bad_payload (H := pickyLibrary) NewClient "POST" "tasks"
           "chan" (Some webhookForm) None ([] : list string)
           (mkState [] twoPages []) zeroFilter (MarshalError "unsupported type")
           eq_refl eq_refl (fun _ => eq_refl) eq_refl).
Defined.

Lemma request_returns_transport_error_witness :
  (request (P := string) NewClient "GET" "tasks" None None None
     ([] : list string) (mkState [] [timedOut] [])).1
  = Val ([], None, Some (TransportError "timeout")).
Proof.
  exact (request_returns_transport_error (P := string) NewClient "GET" "tasks"
           None None None ([] : list string) (mkState [] [timedOut] [])
           (listRequest NewClient "tasks" zeroFilter) (TransportError "timeout")
           eq_refl).
Defined.

Lemma request_nil_like_zero_witness :
  (request (P := string) NewClient "GET" "users/me" None None None
     ([] : list string) (mkState [zeroFilter] twoPages [])).1
  = (request (P := string) NewClient "GET" "users/me" None None (Some 0%nat)
       ([] : list string) (mkState [zeroFilter] twoPages [])).1 /\
  world (request (P := string) NewClient "GET" "users/me" None None None
           ([] : list string) (mkState [zeroFilter] twoPages [])).2
  = world (request (P := string) NewClient "GET" "users/me" None None (Some 0%nat)
             ([] : list string) (mkState [zeroFilter] twoPages [])).2 /\
  trace (request (P := string) NewClient "GET" "users/me" None None None
           ([] : list string) (mkState [zeroFilter] twoPages [])).2
  = trace (request (P := string) NewClient "GET" "users/me" None None (Some 0%nat)
             ([] : list string) (mkState [zeroFilter] twoPages [])).2.
Proof.
  exact (request_nil_like_zero (P := string) NewClient "GET" "users/me" None None
           ([] : list string) (mkState [zeroFilter] twoPages []) 0 eq_refl).
Defined.

Lemma listing_without_filter_one_page_witness :
  (runList (P := string) Tags 1 NewClient None (mkState [] [secondPage] [])).1
  = Val (Some ["c"], None) /\
  trace (runList (P := string) Tags 1 NewClient None (mkState [] [secondPage] [])).2
  = [(listRequest NewClient "tags" zeroFilter, secondPage)].
Proof.
  apply (listing_without_filter_one_page (P := string) Tags NewClient []
           [secondPage] [] [] secondPage ["c"] 0).
  - apply constructible_on_wire.
  - reflexivity.
  - apply secondPage_isPage.
Defined.

Lemma listing_without_filter_panics_at_cursor_witness :
  (runList (P := string) Tags 3 NewClient None (mkState [] twoPages [])).1
  = Panic nilDereference /\
  world (runList (P := string) Tags 3 NewClient None (mkState [] twoPages [])).2
  = [secondPage] /\
  trace (runList (P := string) Tags 3 NewClient None (mkState [] twoPages [])).2
  = [(listRequest NewClient "tags" zeroFilter, firstPage)].
Proof.
  apply (listing_without_filter_panics_at_cursor (P := string) Tags NewClient []
           twoPages [secondPage] [] firstPage ["a"; "b"] (cursor "off1") 2).
  - apply constructible_on_wire.
  - reflexivity.
  - apply firstPage_isPage.
Defined.

Lemma listing_returns_all_pages_witness :
  (runList (P := string) Tasks 2 NewClient (Some 0%nat)
     (mkState [zeroFilter] twoPages [])).1
  = Val (Some ["a"; "b"; "c"], None) /\
  world (runList (P := string) Tasks 2 NewClient (Some 0%nat)
           (mkState [zeroFilter] twoPages [])).2 = [] /\
  trace (runList (P := string) Tasks 2 NewClient (Some 0%nat)
           (mkState [zeroFilter] twoPages [])).2
  = zip (map (listRequest NewClient "tasks") (advance zeroFilter [cursor "off1"]))
      twoPages /\
  length (trace (runList (P := string) Tasks 2 NewClient (Some 0%nat)
                   (mkState [zeroFilter] twoPages [])).2) = 2%nat /\
  map (fun x => URL.RawQuery (HttpRequest.URL x.1) !! "offset")
    (drop 0 (trace (runList (P := string) Tasks 2 NewClient (Some 0%nat)
                      (mkState [zeroFilter] twoPages [])).2))
  = [None; Some ["off1"]].
Proof.
  apply (listing_returns_all_pages (P := string) Tasks NewClient 0 zeroFilter
           [zeroFilter] twoPages [] [] [(["a"; "b"], cursor "off1")] ["c"]
           [firstPage] secondPage 2).
  - reflexivity.
  - apply constructible_on_wire.
  - repeat constructor. apply firstPage_isPage.
  - apply secondPage_isPage.
  - apply (scripted_serves twoPages []). reflexivity.
  - simpl. lia.
Defined.

Lemma listing_fails_after_pages_witness :
  (runList (P := string) Tasks 5 NewClient (Some 0%nat)
     (mkState [zeroFilter] [firstPage; inl errorResponse; secondPage] [])).1
  = Val (None, Some (Errors [notFoundRecord] 200)) /\
  world (runList (P := string) Tasks 5 NewClient (Some 0%nat)
           (mkState [zeroFilter] [firstPage; inl errorResponse; secondPage] [])).2
  = [secondPage] /\
  trace (runList (P := string) Tasks 5 NewClient (Some 0%nat)
           (mkState [zeroFilter] [firstPage; inl errorResponse; secondPage] [])).2
  = zip (map (listRequest NewClient "tasks") (advance zeroFilter [cursor "off1"]))
      [firstPage; inl errorResponse].
Proof.
  apply (listing_fails_after_pages (P := string) Tasks NewClient (Some 0%nat)
           zeroFilter
           [zeroFilter] [firstPage; inl errorResponse; secondPage] [secondPage]
           [] [(["a"; "b"], cursor "off1")]
           [firstPage] (inl errorResponse) (Errors [notFoundRecord] 200) 5).
  - reflexivity.
  - discriminate.
  - apply constructible_on_wire.
  - repeat constructor. apply firstPage_isPage.
  - apply (applicationFailure errorResponse (Response.mk [] None [notFoundRecord]) None);
      [discriminate | reflexivity | discriminate].
  - apply (scripted_serves [firstPage; inl errorResponse] [secondPage]). reflexivity.
  - simpl. lia.
Defined.

Lemma listing_changes_offset_only_witness :
  exists added,
    trace (runList (P := string) (E := string) Users 2 NewClient (Some 0%nat)
             (mkState [fieldSelection] twoPages [])).2 = [] ++ added /\
    Forall (fun x => exists o,
              x.1 = listRequest (B := testWire) NewClient "users"
                      (setOffset o fieldSelection)) added.
Proof.
  apply (listing_changes_offset_only (P := string) Users 2 NewClient (Some 0%nat)
           (mkState [fieldSelection] twoPages []) fieldSelection).
  reflexivity.
Defined.

Lemma listing_has_no_page_limit_witness :
  (runList (P := string) (E := string) Tasks 7 NewClient (Some 0%nat)
     (mkState [zeroFilter] (Forever firstPage) [])).1 = Exhausted /\
  length (trace (runList (P := string) (E := string) Tasks 7 NewClient (Some 0%nat)
                   (mkState [zeroFilter] (Forever firstPage) [])).2)
  = (0 + 7)%nat.
Proof.
  apply (listing_has_no_page_limit (P := string) Tasks NewClient 0 zeroFilter
           (mkState [zeroFilter] (Forever firstPage) []) 7
           (fun w => w = Forever firstPage)).
  - reflexivity.
  - apply constructible_on_wire.
  - reflexivity.
  - intros req w ->. split; [reflexivity|].
    exists ["a"; "b"], (cursor "off1"). apply firstPage_isPage.
Defined.


Example errors_text :
  Errors_Error [notFoundRecord; mkError "p" "m"] 404
  = "code: 404, Not Found - 6 sad squid snuggle softly, m - p".
Proof. vm_compute. reflexivity. Qed.

Lemma toURLValues_of_every_order_witness :
  toURLValues [("target", "t"); ("resource", "7")] !! "resource"
  = (fun v => [v])
      <$> (list_to_map [("target", "t"); ("resource", "7")] : gmap string string)
            !! "resource".
Proof.
  apply (toURLValues_of_every_order [("target", "t"); ("resource", "7")] "resource").
  simpl. apply NoDup_cons. split; [by intros ?%list_elem_of_singleton|].
  apply NoDup_singleton.
Defined.

Lemma number_field_is_a_character_witness :
  GetCustomFieldValue (pointsTask 65) "Points" = ("A", None).
Proof.
  apply (number_field_is_a_character aTask (numberField "Points" 65) [ownerField]).
  - reflexivity.
  - simpl. lia.
Defined.

Lemma number_field_outside_unicode_witness :
  GetCustomFieldValue (pointsTask (-1)) "Points" = (replacement, None).
Proof.
  apply (number_field_outside_unicode aTask (numberField "Points" (-1)) [ownerField]).
  - reflexivity.
  - unfold validRune. simpl. lia.
Defined.

Lemma number_fields_are_told_apart_witness : 8364 = 8364.
Proof.
  apply (number_fields_are_told_apart aTask aTask (numberField "Points" 8364)
           (numberField "Points" 8364) [ownerField] []).
  - reflexivity.
  - reflexivity.
  - unfold validRune, maxRune, surrogateMin, surrogateMax. simpl. lia.
  - unfold validRune, maxRune, surrogateMin, surrogateMax. simpl. lia.
  - reflexivity.
Defined.

Lemma custom_field_value_is_stable_witness :
  GetCustomFieldValue
    (withCustomFields (Task.CustomFields aTask ++ [numberField "Owner" 7]) aTask)
    "Owner"
  = ("Ada", None).
Proof.
  apply (custom_field_value_is_stable aTask [numberField "Owner" 7] "Owner" "Ada").
  reflexivity.
Defined.

Lemma CreateWebhook_sends_a_form_witness :
  HttpRequest.Method createWebhookRequest = "POST" /\
  URL.RawQuery (HttpRequest.URL createWebhookRequest) = ∅ /\
  HttpRequest.Body createWebhookRequest
    = Some (form_Encode (P := string)
              (<["resource" := [pretty 7]]>
                 (<["target" := ["https://example.org/hook"]]> ∅))) /\
  HttpRequest.Header createWebhookRequest !! "Content-Type"
    = Some "application/x-www-form-urlencoded" /\
  (CreateWebhook (P := string) NewClient 7 "https://example.org/hook" ""
     (mkState [] [webhookCreated] [])).1
  = Val ("hook", None).
Proof.
  exact (CreateWebhook_sends_a_form (P := string) NewClient 7
           "https://example.org/hook" ""
           (mkState [] [webhookCreated] []) createWebhookRequest
           webhookCreated eq_refl).
Defined.
